(** * STM32F3 UART / button firmware (stm32f3-uart/test-c/main.c)

    A shallow embedding of the firmware's [main], [uart_putc] and
    [uart_puts].  The memory-mapped registers the program stores to are a
    register file that reads back what was last stored; the two registers
    driven by the hardware (USART1_ISR, GPIOA_IDR) are inputs: the status
    register is an oracle indexed by the number of reads performed so far,
    the input data register is the list of values the polling loop reads,
    one per iteration.  Every store is appended to a trace, so "what was
    emitted" and "how often the LED was written" are read off the trace. *)

From Stdlib Require Import ZArith List Ascii String Bool Lia.
Import ListNotations.
Local Open Scope Z_scope.

(** ** Register map (lines 6-39) *)

Definition RCC_BASE    : Z := 0x40021000.
Definition GPIOA_BASE  : Z := 0x48000000.
Definition GPIOE_BASE  : Z := 0x48001000.
Definition USART1_BASE : Z := 0x40013800.

(** The registers the program stores to.  [GPIOA_AFRH] is the local pointer
    of line 66. *)
Inductive reg : Set :=
| RCC_AHBENR | RCC_APB2ENR
| GPIOA_MODER | GPIOA_AFRH
| GPIOE_MODER | GPIOE_ODR
| USART1_BRR | USART1_CR1 | USART1_TDR.

Definition reg_addr (r : reg) : Z :=
  match r with
  | RCC_AHBENR  => RCC_BASE + 0x14
  | RCC_APB2ENR => RCC_BASE + 0x18
  | GPIOA_MODER => GPIOA_BASE + 0x00
  | GPIOA_AFRH  => GPIOA_BASE + 0x24
  | GPIOE_MODER => GPIOE_BASE + 0x00
  | GPIOE_ODR   => GPIOE_BASE + 0x14
  | USART1_BRR  => USART1_BASE + 0x0C
  | USART1_CR1  => USART1_BASE + 0x00
  | USART1_TDR  => USART1_BASE + 0x28
  end.

Definition reg_eqb (a b : reg) : bool := reg_addr a =? reg_addr b.

Definition RCC_AHBENR_GPIOAEN   : Z := Z.shiftl 1 17.
Definition RCC_AHBENR_GPIOEEN   : Z := Z.shiftl 1 21.
Definition RCC_APB2ENR_USART1EN : Z := Z.shiftl 1 14.

Definition USART_CR1_UE  : Z := Z.shiftl 1 0.
Definition USART_CR1_TE  : Z := Z.shiftl 1 3.
Definition USART_ISR_TXE : Z := Z.shiftl 1 7.

(** ** Machine state *)

(** A [uint32_t] store keeps the low 32 bits. *)
Definition u32 (v : Z) : Z := v mod 2 ^ 32.

Record machine : Type := mkMachine {
  regs      : reg -> Z;          (* value each register reads back *)
  stores    : list (reg * Z);    (* every store so far, oldest first *)
  isr_reads : nat                (* number of reads of USART1_ISR so far *)
}.

Definition load (r : reg) (m : machine) : Z := regs m r.

Definition store (r : reg) (v : Z) (m : machine) : machine :=
  {| regs      := fun r' => if reg_eqb r' r then u32 v else regs m r';
     stores    := stores m ++ [(r, u32 v)];
     isr_reads := isr_reads m |}.

(** [R |= v], [R &= v] and [R ^= v] on a register: load, combine, store. *)
Definition or_assign (r : reg) (v : Z) (m : machine) : machine :=
  store r (Z.lor (load r m) v) m.
Definition and_assign (r : reg) (v : Z) (m : machine) : machine :=
  store r (Z.land (load r m) v) m.
Definition xor_assign (r : reg) (v : Z) (m : machine) : machine :=
  store r (Z.lxor (load r m) v) m.

(** One read of USART1_ISR: the machine after the read. *)
Definition tick (m : machine) : machine :=
  {| regs := regs m; stores := stores m; isr_reads := S (isr_reads m) |}.

(** The values stored to register [r], in order. *)
Definition writes_to (r : reg) (tr : list (reg * Z)) : list Z :=
  map snd (filter (fun e => reg_eqb (fst e) r) tr).

(** The values stored to the transmit data register: the bytes put on the
    wire. *)
Definition uart_tx (m : machine) : list Z := writes_to USART1_TDR (stores m).

(** Level of the LED pin PE9. *)
Definition led_level (m : machine) : bool := Z.testbit (load GPIOE_ODR m) 9.

(** ** Characters and C strings *)

Definition NUL : ascii := "000"%char.
Definition LF  : ascii := "010"%char.
Definition CR  : ascii := "013"%char.

(** A [char] converted to the [uint32_t] stored in USART1_TDR ([char] is
    unsigned on this target). *)
Definition char_code (c : ascii) : Z := Z.of_N (N_of_ascii c).

(** A [string] stands for the bytes found at a [const char *], followed by
    the terminating NUL.  The C string it denotes stops at the first NUL. *)
Fixpoint c_chars (s : string) : list ascii :=
  match s with
  | EmptyString => []
  | String c s' => if Ascii.eqb c NUL then [] else c :: c_chars s'
  end.

(** The two string literals of [main] (lines 80 and 94). *)
Definition greeting : string := "hello world!" ++ String LF EmptyString.
Definition button_msg : string := "button pressed" ++ String LF EmptyString.

Definition option_bind {A B} (o : option A) (k : A -> option B) : option B :=
  match o with
  | Some a => k a
  | None => None
  end.

Notation "x <- o ;; k" := (option_bind o (fun x => k))
  (at level 61, o at next level, right associativity).

(** ** The UART driver (lines 41-53) *)

Section Firmware.

(** [isr n] is the value returned by the [n]-th read of USART1_ISR. *)
Variable isr : nat -> Z.

(** [uart_putc]: spin while TXE is clear, then store the character.
    [fuel] bounds the number of polls; [None] means still spinning. *)
Fixpoint uart_putc (fuel : nat) (c : ascii) (m : machine) : option machine :=
  match fuel with
  | O => None
  | S fuel' =>
      let v := isr (isr_reads m) in
      let m1 := tick m in
      if Z.land v USART_ISR_TXE =? 0
      then uart_putc fuel' c m1
      else Some (store USART1_TDR (char_code c) m1)
  end.

(** [uart_puts]: [fuel] bounds each spin of [uart_putc]. *)
Fixpoint uart_puts (fuel : nat) (s : string) (m : machine) : option machine :=
  match s with
  | EmptyString => Some m
  | String c s' =>
      if Ascii.eqb c NUL then Some m
      else
        m1 <- (if Ascii.eqb c LF then uart_putc fuel CR m else Some m) ;;
        m2 <- uart_putc fuel c m1 ;;
        uart_puts fuel s' m2
  end.

(** ** [main] (lines 55-102) *)

(** Lines 57-58. *)
Definition enable_clocks (m : machine) : machine :=
  let m := or_assign RCC_AHBENR (Z.lor RCC_AHBENR_GPIOAEN RCC_AHBENR_GPIOEEN) m in
  or_assign RCC_APB2ENR RCC_APB2ENR_USART1EN m.

(** Lines 62-72. *)
Definition configure_pins (m : machine) : machine :=
  let m := and_assign GPIOA_MODER (Z.lnot (Z.shiftl 3 (9 * 2))) m in
  let m := or_assign GPIOA_MODER (Z.shiftl 2 (9 * 2)) m in
  let m := and_assign GPIOA_AFRH (Z.lnot (Z.shiftl 0xF 4)) m in
  let m := or_assign GPIOA_AFRH (Z.shiftl 7 4) m in
  let m := and_assign GPIOE_MODER (Z.lnot (Z.shiftl 3 (9 * 2))) m in
  or_assign GPIOE_MODER (Z.shiftl 1 (9 * 2)) m.

(** Lines 76-77. *)
Definition configure_usart (m : machine) : machine :=
  let m := store USART1_BRR 69 m in
  store USART1_CR1 (Z.lor USART_CR1_TE USART_CR1_UE) m.

(** The one-shot bring-up, lines 57-77. *)
Definition bring_up (m : machine) : machine :=
  configure_usart (configure_pins (enable_clocks m)).

(** Lines 57-83: everything [main] does before the polling loop. *)
Definition startup (fuel : nat) (m : machine) : option machine :=
  m1 <- uart_puts fuel greeting (bring_up m) ;;
  Some (or_assign GPIOE_ODR (Z.shiftl 1 9) m1).

(** C truth value of an [int]. *)
Definition truthy (v : Z) : bool := negb (v =? 0).

(** One iteration of the loop, lines 89-98.  [idr] is the value read from
    GPIOA_IDR; the result is the machine and [button_is_pressed]. *)
Definition loop_body (fuel : nat) (idr : Z) (button_is_pressed : Z)
           (m : machine) : option (machine * Z) :=
  let button_state := Z.land idr 1 in
  if negb (truthy button_is_pressed) && truthy button_state then
    Some (m, 1)
  else if truthy button_is_pressed && negb (truthy button_state) then
    m1 <- uart_puts fuel button_msg m ;;
    Some (xor_assign GPIOE_ODR (Z.shiftl 1 9) m1, 0)
  else
    Some (m, button_is_pressed).

(** The first [length idrs] iterations of [while (1)], reading the values
    [idrs] from GPIOA_IDR. *)
Fixpoint main_loop (fuel : nat) (idrs : list Z) (button_is_pressed : Z)
         (m : machine) : option (machine * Z) :=
  match idrs with
  | [] => Some (m, button_is_pressed)
  | idr :: rest =>
      st <- loop_body fuel idr button_is_pressed m ;;
      main_loop fuel rest (snd st) (fst st)
  end.

(** [main] up to the end of the iteration that reads the last of [idrs];
    [button_is_pressed] starts at 0 (line 86). *)
Definition main (fuel : nat) (idrs : list Z) (m : machine)
  : option (machine * Z) :=
  m1 <- startup fuel m ;;
  main_loop fuel idrs 0 m1.

End Firmware.

(** ** Vocabulary of the specification *)

(** The hardware raises TXE again after every read position. *)
Definition eventually_ready (isr : nat -> Z) : Prop :=
  forall n : nat, exists k : nat,
    (Z.land (isr (n + k)%nat) USART_ISR_TXE =? 0) = false.

(** The button level sampled from a value of GPIOA_IDR (pin PA0). *)
Definition sample (idr : Z) : Z := Z.land idr 1.

(** The specification's rule for the string-send operation: each character
    is passed through, and a carriage return is put before each line feed. *)
Definition crlf (cs : list ascii) : list ascii :=
  flat_map (fun c => if Ascii.eqb c LF then [CR; LF] else [c]) cs.

(** Clock and baud rate named in the comment of line 74. *)
Definition assumed_clock_hz : Z := 8000000.
Definition target_baud : Z := 115200.

(** Sample sequences of one completed press-release gesture: the button is
    low for any number of samples, high for at least one, then low again for
    at least one. *)
Definition press_release (idrs : list Z) : Prop :=
  exists lows highs lows',
    idrs = lows ++ highs ++ lows' /\
    Forall (fun v => sample v = 0) lows /\
    Forall (fun v => sample v = 1) highs /\ highs <> [] /\
    Forall (fun v => sample v = 0) lows' /\ lows' <> [].

(** [sent m bytes m']: from [m] to [m'] the program stored exactly [bytes]
    to USART1_TDR, in order, and stored to nothing else. *)
Definition sent (m : machine) (bytes : list Z) (m' : machine) : Prop :=
  stores m' = stores m ++ map (pair USART1_TDR) bytes /\
  (forall r, r <> USART1_TDR -> regs m' r = regs m r) /\
  (isr_reads m <= isr_reads m')%nat.

(** The bytes of the two messages as they must appear on the wire. *)
Definition hello_world_crlf : list Z :=
  [104; 101; 108; 108; 111; 32; 119; 111; 114; 108; 100; 33; 13; 10].
Definition button_pressed_crlf : list Z :=
  map char_code (list_ascii_of_string "button pressed") ++ [13; 10].

(** [released m m']: from [m] to [m'] the program sent the button message
    once and then stored the inverted LED bit once, and did nothing else. *)
Definition released (m m' : machine) : Prop :=
  stores m' = stores m ++ map (pair USART1_TDR) button_pressed_crlf
                ++ [(GPIOE_ODR, u32 (Z.lxor (load GPIOE_ODR m) (Z.shiftl 1 9)))] /\
  load GPIOE_ODR m' = u32 (Z.lxor (load GPIOE_ODR m) (Z.shiftl 1 9)) /\
  (forall r, r <> USART1_TDR -> r <> GPIOE_ODR -> load r m' = load r m).

(** [started m m']: what lines 57-83 do to [m]: the bring-up stores, the
    greeting on the wire, then one store setting the LED bit. *)
Definition started (m m' : machine) : Prop :=
  stores m' = stores (bring_up m) ++ map (pair USART1_TDR) hello_world_crlf
                ++ [(GPIOE_ODR, u32 (Z.lor (load GPIOE_ODR m) (Z.shiftl 1 9)))] /\
  load GPIOE_ODR m' = u32 (Z.lor (load GPIOE_ODR m) (Z.shiftl 1 9)) /\
  (forall r, r <> USART1_TDR -> r <> GPIOE_ODR ->
             load r m' = load r (bring_up m)).

(** A machine whose registers all hold other bits already. *)
Definition busy_machine : machine :=
  {| regs := fun _ => 0xFFFF0001; stores := []; isr_reads := 0 |}.

(** A reset machine: all registers zero, nothing stored, nothing read. *)
Definition reset_machine : machine :=
  {| regs := fun _ => 0; stores := []; isr_reads := 0 |}.

(** An oracle that reports TXE on every other read only. *)
Definition isr_alternating (n : nat) : Z :=
  if Nat.even n then 0x40 else 0xC0.

(** ** Vocabulary of the further properties *)

(** An oracle that never reports TXE. *)
Definition isr_dead (n : nat) : Z := 0x40.

(** An oracle that reports TXE from its third read on. *)
Definition isr_late (n : nat) : Z := if (n <? 2)%nat then 0x40 else 0xC0.

(** The number of falling edges (level 1 followed by level 0) in a sequence
    of button levels that comes after the level [prev]. *)
Fixpoint falling_edges (prev : Z) (levels : list Z) : nat :=
  match levels with
  | [] => 0%nat
  | x :: rest =>
      if (prev =? 1) && (x =? 0)
      then S (falling_edges x rest)
      else falling_edges x rest
  end.

(** [toggled n m m']: from [m] to [m'] the program went [n] times through
    what [released] describes, and did nothing else. *)
Inductive toggled : nat -> machine -> machine -> Prop :=
| toggled_O (m : machine) : toggled 0 m m
| toggled_S (n : nat) (m m1 m2 : machine) :
    released m m1 -> toggled n m1 m2 -> toggled (S n) m m2.

(** Every line feed of [bs] comes directly after a carriage return, where
    [prev] is the byte before [bs]. *)
Fixpoint lf_guarded (prev : Z) (bs : list Z) : bool :=
  match bs with
  | [] => true
  | b :: rest => (negb (b =? 10) || (prev =? 13)) && lf_guarded b rest
  end.

(** The bits 0..31 of a register. *)
Definition bits32 : list Z := map Z.of_nat (seq 0 32).

(** Values of GPIOA_IDR with three releases of the button among them. *)
Definition three_presses : list Z := [0; 1; 0; 3; 2; 1; 1; 0].

(** [stored_to m m' rs]: [stores m'] is [stores m] followed by stores to the
    registers [rs], in that order. *)
Definition stored_to (m m' : machine) (rs : list reg) : Prop :=
  exists tr, stores m' = stores m ++ tr /\ map fst tr = rs.

Example putc_spins_once :
  option_map uart_tx (uart_putc isr_alternating 2 "a" reset_machine) = Some [97]
  /\ uart_putc isr_alternating 1 "a" reset_machine = None.
Proof. split; reflexivity. Qed.

Example puts_greeting :
  option_map uart_tx (uart_puts isr_alternating 2 greeting reset_machine)
  = Some [104;101;108;108;111;32;119;111;114;108;100;33;13;10].
Proof. reflexivity. Qed.

Example main_0110 :
  option_map (fun st => (writes_to GPIOE_ODR (stores (fst st)), snd st))
             (main isr_alternating 2 [0;1;1;0] reset_machine)
  = Some ([512; 0], 0).
Proof. reflexivity. Qed.

(** ** Registers and 32-bit stores *)

Lemma reg_eqb_refl (r : reg) : reg_eqb r r = true.
Proof. apply Z.eqb_refl. Qed.

Lemma reg_eqb_neq (a b : reg) : a <> b -> reg_eqb a b = false.
Proof. destruct a, b; intro H; try reflexivity; congruence. Qed.

Lemma reg_eqb_true (a b : reg) : reg_eqb a b = true -> a = b.
Proof. destruct a, b; intro H; try reflexivity; discriminate H. Qed.

Lemma u32_small (v : Z) : 0 <= v < 2 ^ 32 -> u32 v = v.
Proof. intro H. unfold u32. apply Z.mod_small. exact H. Qed.

Lemma u32_testbit (v i : Z) :
  0 <= i < 32 -> Z.testbit (u32 v) i = Z.testbit v i.
Proof. intro H. unfold u32. apply Z.mod_pow2_bits_low. lia. Qed.

Lemma u32_testbit_high (v i : Z) : 32 <= i -> Z.testbit (u32 v) i = false.
Proof. intro H. unfold u32. apply Z.mod_pow2_bits_high. lia. Qed.

Lemma u32_char_code (c : ascii) : u32 (char_code c) = char_code c.
Proof.
  apply u32_small. unfold char_code.
  pose proof (N_ascii_bounded c). lia.
Qed.

Lemma load_store_same (r : reg) (v : Z) (m : machine) :
  load r (store r v m) = u32 v.
Proof. unfold load, store. simpl. now rewrite reg_eqb_refl. Qed.

Lemma load_store_other (r r' : reg) (v : Z) (m : machine) :
  r' <> r -> load r' (store r v m) = load r' m.
Proof. intro H. unfold load, store. simpl. now rewrite reg_eqb_neq. Qed.

Lemma writes_to_app (r : reg) (a b : list (reg * Z)) :
  writes_to r (a ++ b) = writes_to r a ++ writes_to r b.
Proof. unfold writes_to. now rewrite filter_app, map_app. Qed.

Lemma writes_to_same (r : reg) (vs : list Z) :
  writes_to r (map (pair r) vs) = vs.
Proof.
  induction vs as [|v vs IH]; [reflexivity|].
  unfold writes_to in *. simpl. rewrite reg_eqb_refl. simpl. now rewrite IH.
Qed.

Lemma writes_to_other (r r' : reg) (vs : list Z) :
  r' <> r -> writes_to r (map (pair r') vs) = [].
Proof.
  intro H. induction vs as [|v vs IH]; [reflexivity|].
  unfold writes_to in *. simpl. now rewrite (reg_eqb_neq r' r H).
Qed.

Lemma writes_to_store (r r' : reg) (v : Z) (m : machine) :
  writes_to r (stores (store r' v m))
  = writes_to r (stores m) ++ (if reg_eqb r' r then [u32 v] else []).
Proof.
  unfold store. simpl. rewrite writes_to_app. f_equal.
  unfold writes_to. simpl. now destruct (reg_eqb r' r).
Qed.

(** ** The [sent] relation *)

Lemma sent_refl (m : machine) : sent m [] m.
Proof. unfold sent. simpl. rewrite app_nil_r. auto. Qed.

Lemma sent_trans (m m1 m2 : machine) (a b : list Z) :
  sent m a m1 -> sent m1 b m2 -> sent m (a ++ b) m2.
Proof.
  intros (S1 & F1 & T1) (S2 & F2 & T2). repeat split.
  - rewrite S2, S1, map_app, app_assoc. reflexivity.
  - intros r Hr. rewrite F2, F1; auto.
  - lia.
Qed.

Lemma sent_after_tick (m m' : machine) (bytes : list Z) :
  sent (tick m) bytes m' -> sent m bytes m'.
Proof.
  intros (S1 & F1 & T1). repeat split; simpl in *; auto. lia.
Qed.

Lemma sent_store_tdr (m : machine) (c : ascii) :
  sent m [char_code c] (store USART1_TDR (char_code c) m).
Proof.
  repeat split; simpl.
  - now rewrite u32_char_code.
  - intros r Hr. now rewrite reg_eqb_neq.
  - lia.
Qed.

Lemma sent_uart_tx (m m' : machine) (bytes : list Z) :
  sent m bytes m' -> uart_tx m' = uart_tx m ++ bytes.
Proof.
  intros (S1 & _). unfold uart_tx.
  now rewrite S1, writes_to_app, writes_to_same.
Qed.

(** ** [uart_putc] *)

Section Driver.

Variable isr : nat -> Z.

Lemma uart_putc_sent (fuel : nat) (c : ascii) :
  forall m m', uart_putc isr fuel c m = Some m' -> sent m [char_code c] m'.
Proof.
  induction fuel as [|fuel IH]; intros m m' H; simpl in H; [discriminate|].
  destruct (Z.land (isr (isr_reads m)) USART_ISR_TXE =? 0).
  - apply sent_after_tick. now apply IH.
  - injection H as <-. apply sent_after_tick. apply sent_store_tdr.
Qed.

Lemma uart_putc_mono (fuel : nat) (c : ascii) :
  forall m m' fuel', uart_putc isr fuel c m = Some m' ->
    (fuel <= fuel')%nat -> uart_putc isr fuel' c m = Some m'.
Proof.
  induction fuel as [|fuel IH]; intros m m' fuel' H Hle; simpl in H;
    [discriminate|].
  destruct fuel' as [|fuel']; [lia|]. simpl.
  destruct (Z.land (isr (isr_reads m)) USART_ISR_TXE =? 0).
  - apply IH; [exact H | lia].
  - exact H.
Qed.

Lemma uart_putc_within (c : ascii) (k : nat) :
  forall m,
    (Z.land (isr (isr_reads m + k)%nat) USART_ISR_TXE =? 0) = false ->
    exists m', uart_putc isr (S k) c m = Some m'.
Proof.
  induction k as [|k IH]; intros m H.
  - rewrite Nat.add_0_r in H. simpl. rewrite H. eauto.
  - change (uart_putc isr (S (S k)) c m)
      with (if Z.land (isr (isr_reads m)) USART_ISR_TXE =? 0
            then uart_putc isr (S k) c (tick m)
            else Some (store USART1_TDR (char_code c) (tick m))).
    destruct (Z.land (isr (isr_reads m)) USART_ISR_TXE =? 0); [|eauto].
    apply IH. simpl. now rewrite <- Nat.add_succ_r.
Qed.

(** *** [uart_puts] *)

Lemma crlf_cons (c : ascii) (cs : list ascii) :
  crlf (c :: cs) = (if Ascii.eqb c LF then [CR; LF] else [c]) ++ crlf cs.
Proof. reflexivity. Qed.

Lemma uart_puts_sent (fuel : nat) (s : string) :
  forall m m', uart_puts isr fuel s m = Some m' ->
    sent m (map char_code (crlf (c_chars s))) m'.
Proof.
  induction s as [|c s IH]; intros m m' H; simpl in H.
  - injection H as <-. apply sent_refl.
  - simpl c_chars. destruct (Ascii.eqb c NUL).
    + injection H as <-. apply sent_refl.
    + rewrite crlf_cons, map_app.
      destruct (Ascii.eqb c LF) eqn:Elf.
      * apply Ascii.eqb_eq in Elf. subst c.
        destruct (uart_putc isr fuel CR m) as [m1|] eqn:E1;
          [simpl in H | discriminate].
        destruct (uart_putc isr fuel LF m1) as [m2|] eqn:E2;
          [simpl in H | discriminate].
        apply uart_putc_sent in E1, E2. apply IH in H.
        exact (sent_trans _ _ _ _ _ (sent_trans _ _ _ _ _ E1 E2) H).
      * simpl in H.
        destruct (uart_putc isr fuel c m) as [m2|] eqn:E2;
          [simpl in H | discriminate].
        apply uart_putc_sent in E2. apply IH in H.
        exact (sent_trans _ _ _ _ _ E2 H).
Qed.

Lemma uart_puts_mono (fuel fuel' : nat) (s : string) :
  (fuel <= fuel')%nat ->
  forall m m', uart_puts isr fuel s m = Some m' ->
    uart_puts isr fuel' s m = Some m'.
Proof.
  intro Hle. induction s as [|c s IH]; intros m m' H; simpl in *; [exact H|].
  destruct (Ascii.eqb c NUL); [exact H|].
  destruct (Ascii.eqb c LF).
  - destruct (uart_putc isr fuel CR m) as [m1|] eqn:E1;
      [simpl in H | discriminate].
    destruct (uart_putc isr fuel c m1) as [m2|] eqn:E2;
      [simpl in H | discriminate].
    rewrite (uart_putc_mono _ _ _ _ _ E1 Hle). simpl.
    rewrite (uart_putc_mono _ _ _ _ _ E2 Hle). simpl.
    now apply IH.
  - simpl in *.
    destruct (uart_putc isr fuel c m) as [m2|] eqn:E2;
      [simpl in H | discriminate].
    rewrite (uart_putc_mono _ _ _ _ _ E2 Hle). simpl.
    now apply IH.
Qed.

Hypothesis ready : eventually_ready isr.

Lemma uart_putc_total (c : ascii) (m : machine) :
  exists fuel m', uart_putc isr fuel c m = Some m'.
Proof.
  destruct (ready (isr_reads m)) as [k Hk].
  destruct (uart_putc_within c k m Hk) as [m' Hm']. eauto.
Qed.

Lemma uart_puts_total (s : string) :
  forall m, exists fuel m', uart_puts isr fuel s m = Some m'.
Proof.
  induction s as [|c s IH]; intro m; simpl.
  - exists 0%nat, m. reflexivity.
  - destruct (Ascii.eqb c NUL); [exists 0%nat, m; reflexivity|].
    assert (exists f1 m1,
               (if Ascii.eqb c LF then uart_putc isr f1 CR m else Some m)
               = Some m1) as (f1 & m1 & E1).
    { destruct (Ascii.eqb c LF); [apply uart_putc_total|].
      exists 0%nat, m. reflexivity. }
    destruct (uart_putc_total c m1) as (f2 & m2 & E2).
    destruct (IH m2) as (f3 & m3 & E3).
    exists (Nat.max f1 (Nat.max f2 f3)), m3.
    assert (E1' : (if Ascii.eqb c LF
                   then uart_putc isr (Nat.max f1 (Nat.max f2 f3)) CR m
                   else Some m) = Some m1).
    { destruct (Ascii.eqb c LF); [|exact E1].
      eapply uart_putc_mono; [exact E1 | lia]. }
    rewrite E1'. simpl.
    rewrite (uart_putc_mono _ _ _ _ (Nat.max f1 (Nat.max f2 f3)) E2) by lia.
    simpl. eapply uart_puts_mono; [|exact E3]. lia.
Qed.

(** With enough fuel [uart_puts] returns, and always the same machine. *)
Lemma uart_puts_runs (s : string) (m : machine) :
  exists f0 m',
    (forall fuel, (f0 <= fuel)%nat -> uart_puts isr fuel s m = Some m') /\
    sent m (map char_code (crlf (c_chars s))) m'.
Proof.
  destruct (uart_puts_total s m) as (f0 & m' & E).
  exists f0, m'. split.
  - intros fuel Hle. eapply uart_puts_mono; eauto.
  - eapply uart_puts_sent; eauto.
Qed.

End Driver.

(** ** The polling loop *)

Lemma sample_bit (v : Z) : sample v = 0 \/ sample v = 1.
Proof.
  unfold sample.
  assert (E : Z.land v 1 = v mod 2) by (apply (Z.land_ones v 1); lia).
  rewrite E. pose proof (Z.mod_pos_bound v 2). lia.
Qed.

Lemma u32_lxor_twice (v k : Z) : u32 (Z.lxor (u32 (Z.lxor v k)) k) = u32 v.
Proof.
  apply Z.bits_inj'. intros i Hi.
  destruct (Z_lt_ge_dec i 32) as [Hlt|Hge].
  - rewrite !u32_testbit, Z.lxor_spec, u32_testbit, Z.lxor_spec by lia.
    now destruct (Z.testbit v i), (Z.testbit k i).
  - now rewrite !u32_testbit_high by lia.
Qed.

Lemma toggle_bit9 (v : Z) :
  Z.testbit (u32 (Z.lxor v (Z.shiftl 1 9))) 9 = negb (Z.testbit v 9).
Proof.
  rewrite u32_testbit, Z.lxor_spec by lia.
  change (Z.testbit (Z.shiftl 1 9) 9) with true.
  now destruct (Z.testbit v 9).
Qed.

Lemma released_led (m m' : machine) :
  released m m' -> led_level m' = negb (led_level m).
Proof. intros (_ & H & _). unfold led_level. rewrite H. apply toggle_bit9. Qed.

Lemma released_uart_tx (m m' : machine) :
  released m m' -> uart_tx m' = uart_tx m ++ button_pressed_crlf.
Proof.
  intros (H & _). unfold uart_tx.
  rewrite H, !writes_to_app, writes_to_same.
  change (writes_to USART1_TDR [_]) with (@nil Z). now rewrite app_nil_r.
Qed.

Lemma released_odr_writes (m m' : machine) :
  released m m' ->
  writes_to GPIOE_ODR (stores m')
  = writes_to GPIOE_ODR (stores m)
      ++ [u32 (Z.lxor (load GPIOE_ODR m) (Z.shiftl 1 9))].
Proof.
  intros (H & _).
  rewrite H, !writes_to_app, writes_to_other by discriminate.
  reflexivity.
Qed.

Section Loop.

Variable isr : nat -> Z.

Lemma loop_body_low_released (fuel : nat) (v : Z) (m : machine) :
  sample v = 0 -> loop_body isr fuel v 0 m = Some (m, 0).
Proof. unfold sample, loop_body. intros ->. reflexivity. Qed.

Lemma loop_body_high_released (fuel : nat) (v : Z) (m : machine) :
  sample v = 1 -> loop_body isr fuel v 0 m = Some (m, 1).
Proof. unfold sample, loop_body. intros ->. reflexivity. Qed.

Lemma loop_body_high_pressed (fuel : nat) (v : Z) (m : machine) :
  sample v = 1 -> loop_body isr fuel v 1 m = Some (m, 1).
Proof. unfold sample, loop_body. intros ->. reflexivity. Qed.

Lemma loop_body_low_pressed (fuel : nat) (v : Z) (m : machine) :
  sample v = 0 ->
  loop_body isr fuel v 1 m
  = (m1 <- uart_puts isr fuel button_msg m ;;
     Some (xor_assign GPIOE_ODR (Z.shiftl 1 9) m1, 0)).
Proof. unfold sample, loop_body. intros ->. reflexivity. Qed.

Lemma main_loop_app (fuel : nat) (l1 l2 : list Z) :
  forall p m,
    main_loop isr fuel (l1 ++ l2) p m
    = (st <- main_loop isr fuel l1 p m ;;
       main_loop isr fuel l2 (snd st) (fst st)).
Proof.
  induction l1 as [|v l1 IH]; intros p m; simpl; [reflexivity|].
  destruct (loop_body isr fuel v p m) as [[m1 p1]|]; simpl; [|reflexivity].
  apply IH.
Qed.

Lemma main_loop_low (fuel : nat) (l : list Z) (m : machine) :
  Forall (fun v => sample v = 0) l ->
  main_loop isr fuel l 0 m = Some (m, 0).
Proof.
  induction 1 as [|v l Hv _ IH]; simpl; [reflexivity|].
  now rewrite loop_body_low_released.
Qed.

Lemma main_loop_high (fuel : nat) (l : list Z) (m : machine) :
  Forall (fun v => sample v = 1) l ->
  main_loop isr fuel l 1 m = Some (m, 1).
Proof.
  induction 1 as [|v l Hv _ IH]; simpl; [reflexivity|].
  now rewrite loop_body_high_pressed.
Qed.

Lemma main_loop_press (fuel : nat) (l : list Z) (m : machine) :
  Forall (fun v => sample v = 1) l -> l <> [] ->
  main_loop isr fuel l 0 m = Some (m, 1).
Proof.
  intros H Hne. destruct H as [|v l Hv Hl]; [congruence|]. simpl.
  rewrite loop_body_high_released by exact Hv. simpl.
  now apply main_loop_high.
Qed.

(** No release while the samples are low, then high. *)
Lemma main_loop_no_release (fuel : nat) (lows highs : list Z) (m : machine) :
  Forall (fun v => sample v = 0) lows ->
  Forall (fun v => sample v = 1) highs ->
  exists p, main_loop isr fuel (lows ++ highs) 0 m = Some (m, p).
Proof.
  intros Hl Hh. rewrite main_loop_app, main_loop_low by exact Hl. simpl.
  destruct highs as [|v highs]; [eexists; reflexivity|].
  exists 1. apply main_loop_press; [exact Hh | discriminate].
Qed.

Lemma loop_body_mono (fuel fuel' : nat) (v p : Z) (m : machine) st :
  (fuel <= fuel')%nat ->
  loop_body isr fuel v p m = Some st -> loop_body isr fuel' v p m = Some st.
Proof.
  intros Hle. unfold loop_body.
  destruct (negb (truthy p) && truthy (Z.land v 1)); [auto|].
  destruct (truthy p && negb (truthy (Z.land v 1))); [|auto].
  destruct (uart_puts isr fuel button_msg m) as [m1|] eqn:E;
    [|discriminate].
  now rewrite (uart_puts_mono isr _ _ _ Hle _ _ E).
Qed.

Lemma main_loop_mono (fuel fuel' : nat) (l : list Z) :
  (fuel <= fuel')%nat ->
  forall p m st,
    main_loop isr fuel l p m = Some st -> main_loop isr fuel' l p m = Some st.
Proof.
  intros Hle. induction l as [|v l IH]; intros p m st H; simpl in *;
    [exact H|].
  destruct (loop_body isr fuel v p m) as [st1|] eqn:E; [|discriminate].
  rewrite (loop_body_mono _ _ _ _ _ _ Hle E). simpl in *. now apply IH.
Qed.

(** After a completed iteration the flag is the level just sampled. *)
Lemma loop_body_flag (fuel : nat) (v p : Z) (m m' : machine) (p' : Z) :
  p = 0 \/ p = 1 ->
  loop_body isr fuel v p m = Some (m', p') -> p' = sample v.
Proof.
  intros Hp H.
  destruct (sample_bit v) as [Hv|Hv]; destruct Hp as [-> | ->]; rewrite Hv.
  - rewrite loop_body_low_released in H by exact Hv. congruence.
  - rewrite loop_body_low_pressed in H by exact Hv.
    destruct (uart_puts isr fuel button_msg m); [|discriminate].
    simpl in H. congruence.
  - rewrite loop_body_high_released in H by exact Hv. congruence.
  - rewrite loop_body_high_pressed in H by exact Hv. congruence.
Qed.

Lemma main_loop_flag (fuel : nat) (l : list Z) :
  forall p m m' p',
    p = 0 \/ p = 1 ->
    main_loop isr fuel l p m = Some (m', p') -> p' = 0 \/ p' = 1.
Proof.
  induction l as [|v l IH]; intros p m m' p' Hp H; simpl in H.
  - now injection H as _ <-.
  - destruct (loop_body isr fuel v p m) as [[m1 p1]|] eqn:E; [|discriminate].
    simpl in H. apply (IH p1 m1 m' p'); [|exact H].
    rewrite (loop_body_flag _ _ _ _ _ _ Hp E). apply sample_bit.
Qed.

Hypothesis ready : eventually_ready isr.

Lemma loop_body_total (v p : Z) (m : machine) :
  exists fuel st, loop_body isr fuel v p m = Some st.
Proof.
  unfold loop_body.
  destruct (negb (truthy p) && truthy (Z.land v 1));
    [exists 0%nat; eauto|].
  destruct (truthy p && negb (truthy (Z.land v 1)));
    [|exists 0%nat; eauto].
  destruct (uart_puts_total isr ready button_msg m) as (fuel & m1 & E).
  exists fuel. rewrite E. simpl. eauto.
Qed.

Lemma main_loop_total (l : list Z) :
  forall p m, exists fuel st, main_loop isr fuel l p m = Some st.
Proof.
  induction l as [|v l IH]; intros p m; simpl.
  - exists 0%nat. eauto.
  - destruct (loop_body_total v p m) as (f1 & [m1 p1] & E1).
    destruct (IH p1 m1) as (f2 & st & E2).
    exists (Nat.max f1 f2), st.
    rewrite (loop_body_mono f1 (Nat.max f1 f2) _ _ _ _ (Nat.le_max_l _ _) E1).
    simpl. apply (main_loop_mono f2); [lia | exact E2].
Qed.

(** The iteration that sees the button low while the flag is set. *)
Lemma loop_body_release (v : Z) (m : machine) :
  sample v = 0 ->
  exists f0 m',
    (forall fuel, (f0 <= fuel)%nat ->
                  loop_body isr fuel v 1 m = Some (m', 0)) /\
    released m m'.
Proof.
  intro Hv.
  destruct (uart_puts_runs isr ready button_msg m) as (f0 & m1 & Hrun & Hs).
  exists f0, (xor_assign GPIOE_ODR (Z.shiftl 1 9) m1). split.
  - intros fuel Hle. rewrite loop_body_low_pressed by exact Hv.
    now rewrite (Hrun fuel Hle).
  - destruct Hs as (S1 & F1 & _).
    assert (HO : load GPIOE_ODR m1 = load GPIOE_ODR m)
      by (apply F1; discriminate).
    unfold xor_assign. repeat split.
    + unfold store. simpl stores. rewrite S1, HO, <- app_assoc. reflexivity.
    + now rewrite load_store_same, HO.
    + intros r Hr1 Hr2. rewrite load_store_other by exact Hr2.
      now apply F1.
Qed.

(** One completed press-release gesture. *)
Lemma main_loop_press_release (idrs : list Z) (m : machine) :
  press_release idrs ->
  exists f0 m',
    (forall fuel, (f0 <= fuel)%nat ->
                  main_loop isr fuel idrs 0 m = Some (m', 0)) /\
    released m m'.
Proof.
  intros (lows & highs & lows' & -> & Hl & Hh & Hne & Hl' & Hne').
  destruct Hl' as [|z lows' Hz Hl']; [congruence|].
  destruct (loop_body_release z m Hz) as (f0 & m' & Hrun & Hrel).
  exists f0, m'. split; [|exact Hrel].
  intros fuel Hle.
  rewrite main_loop_app, main_loop_low by exact Hl. simpl.
  rewrite main_loop_app, main_loop_press by assumption. simpl.
  rewrite (Hrun fuel Hle). simpl. now apply main_loop_low.
Qed.

(** Two gestures in a row. *)
Lemma main_loop_two_gestures (c1 c2 : list Z) (m : machine) :
  press_release c1 -> press_release c2 ->
  exists f0 m1 m2,
    (forall fuel, (f0 <= fuel)%nat ->
                  main_loop isr fuel c1 0 m = Some (m1, 0) /\
                  main_loop isr fuel (c1 ++ c2) 0 m = Some (m2, 0)) /\
    released m m1 /\ released m1 m2.
Proof.
  intros H1 H2.
  destruct (main_loop_press_release c1 m H1) as (f1 & m1 & R1 & E1).
  destruct (main_loop_press_release c2 m1 H2) as (f2 & m2 & R2 & E2).
  exists (Nat.max f1 f2), m1, m2. repeat split; try apply E1; try apply E2.
  - apply R1. lia.
  - rewrite main_loop_app, R1 by lia. simpl. apply R2. lia.
Qed.

End Loop.

(** ** Bring-up and start of [main] *)

Lemma writes_to_store_other (r r' : reg) (v : Z) (m : machine) :
  r' <> r -> writes_to r (stores (store r' v m)) = writes_to r (stores m).
Proof.
  intro H. rewrite writes_to_store, (reg_eqb_neq r' r H). apply app_nil_r.
Qed.

Ltac unfold_bring_up :=
  cbv beta zeta delta [bring_up configure_usart configure_pins enable_clocks
                       or_assign and_assign xor_assign].

Lemma enable_clocks_ahbenr (m : machine) :
  load RCC_AHBENR (enable_clocks m)
  = u32 (Z.lor (load RCC_AHBENR m)
               (Z.lor RCC_AHBENR_GPIOAEN RCC_AHBENR_GPIOEEN)).
Proof.
  unfold_bring_up.
  now rewrite load_store_other, load_store_same by discriminate.
Qed.

Lemma enable_clocks_apb2enr (m : machine) :
  load RCC_APB2ENR (enable_clocks m)
  = u32 (Z.lor (load RCC_APB2ENR m) RCC_APB2ENR_USART1EN).
Proof.
  unfold_bring_up.
  now rewrite load_store_same, load_store_other by discriminate.
Qed.

Lemma bring_up_rcc (m : machine) :
  load RCC_AHBENR (bring_up m) = load RCC_AHBENR (enable_clocks m) /\
  load RCC_APB2ENR (bring_up m) = load RCC_APB2ENR (enable_clocks m).
Proof.
  split; unfold bring_up, configure_usart, configure_pins;
    cbv beta zeta delta [or_assign and_assign];
    now rewrite !load_store_other by discriminate.
Qed.

Lemma bring_up_odr (m : machine) :
  load GPIOE_ODR (bring_up m) = load GPIOE_ODR m.
Proof. unfold_bring_up. now rewrite !load_store_other by discriminate. Qed.

Lemma bring_up_brr (m : machine) : load USART1_BRR (bring_up m) = 69.
Proof.
  unfold_bring_up.
  now rewrite load_store_other, load_store_same by discriminate.
Qed.

Lemma bring_up_cr1 (m : machine) : load USART1_CR1 (bring_up m) = 9.
Proof. unfold_bring_up. now rewrite load_store_same. Qed.

Lemma bring_up_uart_tx (m : machine) : uart_tx (bring_up m) = uart_tx m.
Proof.
  unfold uart_tx. unfold_bring_up.
  now rewrite !writes_to_store_other by discriminate.
Qed.

Lemma bring_up_writes_brr (m : machine) :
  writes_to USART1_BRR (stores (bring_up m))
  = writes_to USART1_BRR (stores m) ++ [69].
Proof.
  unfold_bring_up.
  rewrite writes_to_store_other by discriminate.
  rewrite writes_to_store, reg_eqb_refl.
  now rewrite !writes_to_store_other by discriminate.
Qed.

Lemma bring_up_writes_cr1 (m : machine) :
  writes_to USART1_CR1 (stores (bring_up m))
  = writes_to USART1_CR1 (stores m) ++ [9].
Proof.
  unfold_bring_up.
  rewrite writes_to_store, reg_eqb_refl.
  now rewrite !writes_to_store_other by discriminate.
Qed.

Lemma set_bit9 (v i : Z) :
  0 <= i < 32 ->
  Z.testbit (u32 (Z.lor v (Z.shiftl 1 9))) i
  = if i =? 9 then true else Z.testbit v i.
Proof.
  intro Hi. rewrite u32_testbit, Z.lor_spec by exact Hi.
  destruct (Z.eqb_spec i 9) as [-> | Hne].
  - apply orb_true_r.
  - rewrite Z.shiftl_1_l, Z.pow2_bits_eqb by lia.
    destruct (Z.eqb_spec 9 i); [lia|]. apply orb_false_r.
Qed.

Lemma started_led (m m' : machine) : started m m' -> led_level m' = true.
Proof.
  intros (_ & H & _). unfold led_level. rewrite H.
  now rewrite set_bit9 by lia.
Qed.

Lemma started_uart_tx (m m' : machine) :
  started m m' -> uart_tx m' = uart_tx m ++ hello_world_crlf.
Proof.
  intros (H & _). unfold uart_tx.
  rewrite H, !writes_to_app, writes_to_same.
  change (writes_to USART1_TDR [_]) with (@nil Z).
  rewrite app_nil_r. f_equal. apply bring_up_uart_tx.
Qed.

Section Startup.

Variable isr : nat -> Z.

Lemma startup_mono (fuel fuel' : nat) (m m' : machine) :
  (fuel <= fuel')%nat ->
  startup isr fuel m = Some m' -> startup isr fuel' m = Some m'.
Proof.
  intros Hle. unfold startup.
  destruct (uart_puts isr fuel greeting (bring_up m)) as [m1|] eqn:E;
    [|discriminate].
  now rewrite (uart_puts_mono isr _ _ _ Hle _ _ E).
Qed.

Lemma main_mono (fuel fuel' : nat) (idrs : list Z) (m : machine) st :
  (fuel <= fuel')%nat ->
  main isr fuel idrs m = Some st -> main isr fuel' idrs m = Some st.
Proof.
  intros Hle. unfold main.
  destruct (startup isr fuel m) as [m1|] eqn:E; [|discriminate].
  rewrite (startup_mono _ _ _ _ Hle E). simpl.
  now apply main_loop_mono.
Qed.

Hypothesis ready : eventually_ready isr.

Lemma startup_runs (m : machine) :
  exists f0 m',
    (forall fuel, (f0 <= fuel)%nat -> startup isr fuel m = Some m') /\
    started m m'.
Proof.
  destruct (uart_puts_runs isr ready greeting (bring_up m))
    as (f0 & m1 & Hrun & S1 & F1 & _).
  exists f0, (or_assign GPIOE_ODR (Z.shiftl 1 9) m1). split.
  - intros fuel Hle. unfold startup. now rewrite (Hrun fuel Hle).
  - assert (HO : load GPIOE_ODR m1 = load GPIOE_ODR m).
    { unfold load. rewrite F1 by discriminate. apply bring_up_odr. }
    unfold or_assign. repeat split.
    + unfold store. simpl stores. rewrite S1, HO, <- app_assoc. reflexivity.
    + now rewrite load_store_same, HO.
    + intros r Hr1 Hr2. rewrite load_store_other by exact Hr2.
      now apply F1.
Qed.

(** [main] through a loop prefix that [main_loop] completes. *)
Lemma main_runs (idrs : list Z) (m : machine) :
  exists f0 m1,
    (forall fuel, (f0 <= fuel)%nat -> startup isr fuel m = Some m1) /\
    started m m1 /\
    forall f1 st,
      (forall fuel, (f1 <= fuel)%nat ->
                    main_loop isr fuel idrs 0 m1 = Some st) ->
      forall fuel, (Nat.max f0 f1 <= fuel)%nat ->
                   main isr fuel idrs m = Some st.
Proof.
  destruct (startup_runs m) as (f0 & m1 & Hrun & Hst).
  exists f0, m1. repeat split; [exact Hrun | apply Hst..|].
  intros f1 st Hloop fuel Hle. unfold main.
  rewrite (Hrun fuel) by lia. simpl. apply Hloop. lia.
Qed.

End Startup.

(** ** Concrete inputs *)

Lemma isr_alternating_ready : eventually_ready isr_alternating.
Proof.
  intro n. unfold isr_alternating. destruct (Nat.even n) eqn:E.
  - exists 1%nat. now rewrite Nat.add_1_r, Nat.even_succ, <- Nat.negb_even, E.
  - exists 0%nat. now rewrite Nat.add_0_r, E.
Qed.

Example hello_world_crlf_chars :
  hello_world_crlf
  = map char_code (list_ascii_of_string "hello world!" ++ [CR; LF]).
Proof. reflexivity. Qed.

Example hello_world_crlf_greeting :
  hello_world_crlf = map char_code (crlf (c_chars greeting)).
Proof. reflexivity. Qed.

Example c_chars_stops_at_nul :
  c_chars (String "a" (String NUL (String "b" EmptyString))) = ["a"%char].
Proof. reflexivity. Qed.

Lemma c_chars_no_nul (s : string) :
  Forall (fun c => c <> NUL) (list_ascii_of_string s) ->
  c_chars s = list_ascii_of_string s.
Proof.
  induction s as [|c s IH]; simpl; intro H; [reflexivity|].
  inversion H as [|? ? Hc Hs]; subst.
  destruct (Ascii.eqb_spec c NUL) as [->|_]; [congruence|].
  now rewrite IH.
Qed.

(** ** The claims *)

Ltac split_all := repeat match goal with |- _ /\ _ => split end.

(** C1.  For every C string [s] (the characters before the first NUL),
    once the hardware keeps reporting TXE, [uart_puts] returns and has stored
    to USART1_TDR exactly the characters of [s] in order with one carriage
    return put immediately before each line feed ([crlf]); every other
    character goes out unchanged, no other register is stored to, and any
    run that returns ends in this same machine. *)
Theorem uart_puts_emits_crlf (isr : nat -> Z) (s : string) (m : machine) :
  eventually_ready isr ->
  exists f0 m',
    (forall fuel, (f0 <= fuel)%nat -> uart_puts isr fuel s m = Some m') /\
    (forall fuel m'', uart_puts isr fuel s m = Some m'' -> m'' = m') /\
    stores m' = stores m
                  ++ map (pair USART1_TDR) (map char_code (crlf (c_chars s))) /\
    uart_tx m' = uart_tx m ++ map char_code (crlf (c_chars s)) /\
    (forall r, r <> USART1_TDR -> load r m' = load r m).
Proof.
  intro ready.
  destruct (uart_puts_runs isr ready s m) as (f0 & m' & Hrun & Hs).
  exists f0, m'. split_all.
  - exact Hrun.
  - intros fuel m'' H.
    pose proof (uart_puts_mono isr fuel (Nat.max fuel f0) s
                  (Nat.le_max_l _ _) _ _ H) as H1.
    rewrite (Hrun (Nat.max fuel f0) (Nat.le_max_r _ _)) in H1. congruence.
  - apply Hs.
  - now apply sent_uart_tx.
  - apply Hs.
Qed.

Lemma uart_puts_emits_crlf_witness :
  eventually_ready isr_alternating /\
  exists f0 m',
    (forall fuel, (f0 <= fuel)%nat ->
       uart_puts isr_alternating fuel button_msg reset_machine = Some m') /\
    (forall fuel m'',
       uart_puts isr_alternating fuel button_msg reset_machine = Some m'' ->
       m'' = m') /\
    stores m' = stores reset_machine
                  ++ map (pair USART1_TDR)
                       (map char_code (crlf (c_chars button_msg))) /\
    uart_tx m' = uart_tx reset_machine
                   ++ map char_code (crlf (c_chars button_msg)) /\
    (forall r, r <> USART1_TDR -> load r m' = load r reset_machine).
Proof.
  split; [exact isr_alternating_ready|].
  exact (uart_puts_emits_crlf isr_alternating button_msg reset_machine
           isr_alternating_ready).
Defined.

(** C2.  From Released, on samples 0,1,1,0 the first three iterations leave
    the machine untouched (the flag goes 0,1,1: nothing happens on the press
    edge); the fourth iteration returns with the flag cleared, having put
    the button message on the wire once and stored to the LED register once,
    inverting the LED level. *)
Theorem debounce_0110 (isr : nat -> Z) (m : machine) (v1 v2 v3 v4 : Z) :
  eventually_ready isr ->
  sample v1 = 0 -> sample v2 = 1 -> sample v3 = 1 -> sample v4 = 0 ->
  (forall fuel,
      main_loop isr fuel [v1] 0 m = Some (m, 0) /\
      main_loop isr fuel [v1; v2] 0 m = Some (m, 1) /\
      main_loop isr fuel [v1; v2; v3] 0 m = Some (m, 1)) /\
  exists f0 m',
    (forall fuel, (f0 <= fuel)%nat ->
                  main_loop isr fuel [v1; v2; v3; v4] 0 m = Some (m', 0)) /\
    uart_tx m' = uart_tx m ++ button_pressed_crlf /\
    writes_to GPIOE_ODR (stores m')
    = writes_to GPIOE_ODR (stores m)
        ++ [u32 (Z.lxor (load GPIOE_ODR m) (Z.shiftl 1 9))] /\
    led_level m' = negb (led_level m).
Proof.
  intros ready H1 H2 H3 H4. split.
  - intro fuel. simpl.
    rewrite (loop_body_low_released isr fuel v1 m H1). simpl.
    rewrite (loop_body_high_released isr fuel v2 m H2). simpl.
    rewrite (loop_body_high_pressed isr fuel v3 m H3). simpl. auto.
  - destruct (main_loop_press_release isr ready [v1; v2; v3; v4] m)
      as (f0 & m' & Hrun & Hrel).
    { exists [v1], [v2; v3], [v4]. repeat split; auto; discriminate. }
    exists f0, m'. split_all.
    + exact Hrun.
    + now apply released_uart_tx.
    + now apply released_odr_writes.
    + now apply released_led.
Qed.

Lemma debounce_0110_witness :
  (forall fuel,
      main_loop isr_alternating fuel [0] 0 reset_machine
      = Some (reset_machine, 0) /\
      main_loop isr_alternating fuel [0; 1] 0 reset_machine
      = Some (reset_machine, 1) /\
      main_loop isr_alternating fuel [0; 1; 1] 0 reset_machine
      = Some (reset_machine, 1)) /\
  exists f0 m',
    (forall fuel, (f0 <= fuel)%nat ->
       main_loop isr_alternating fuel [0; 1; 1; 0] 0 reset_machine
       = Some (m', 0)) /\
    uart_tx m' = uart_tx reset_machine ++ button_pressed_crlf /\
    writes_to GPIOE_ODR (stores m')
    = writes_to GPIOE_ODR (stores reset_machine)
        ++ [u32 (Z.lxor (load GPIOE_ODR reset_machine) (Z.shiftl 1 9))] /\
    led_level m' = negb (led_level reset_machine).
Proof.
  apply (debounce_0110 isr_alternating reset_machine 0 1 1 0
           isr_alternating_ready); reflexivity.
Defined.

(** C3.  Once the hardware keeps reporting TXE, the start of [main]
    (bring-up, [uart_puts "hello world!\n"], LED on) returns, and the bytes
    it has put on the wire are exactly h e l l o space w o r l d ! CR LF.
    The loop then leaves that machine untouched for as long as no release is
    seen, that is on every sample sequence that is low and then high. *)
Theorem startup_emits_hello (isr : nat -> Z) (m : machine) :
  eventually_ready isr ->
  exists f0 m1,
    (forall fuel, (f0 <= fuel)%nat -> startup isr fuel m = Some m1) /\
    uart_tx m1 = uart_tx m ++ hello_world_crlf /\
    (forall lows highs,
        Forall (fun v => sample v = 0) lows ->
        Forall (fun v => sample v = 1) highs ->
        forall fuel, (f0 <= fuel)%nat ->
          exists p, main isr fuel (lows ++ highs) m = Some (m1, p)).
Proof.
  intro ready.
  destruct (startup_runs isr ready m) as (f0 & m1 & Hrun & Hst).
  exists f0, m1. split_all.
  - exact Hrun.
  - now apply started_uart_tx.
  - intros lows highs Hl Hh fuel Hle. unfold main.
    rewrite (Hrun fuel Hle). simpl.
    now apply main_loop_no_release.
Qed.

Lemma startup_emits_hello_witness :
  eventually_ready isr_alternating /\
  exists f0 m1,
    (forall fuel, (f0 <= fuel)%nat ->
                  startup isr_alternating fuel reset_machine = Some m1) /\
    uart_tx m1 = uart_tx reset_machine ++ hello_world_crlf /\
    (forall lows highs,
        Forall (fun v => sample v = 0) lows ->
        Forall (fun v => sample v = 1) highs ->
        forall fuel, (f0 <= fuel)%nat ->
          exists p,
            main isr_alternating fuel (lows ++ highs) reset_machine
            = Some (m1, p)).
Proof.
  split; [exact isr_alternating_ready|].
  exact (startup_emits_hello isr_alternating reset_machine
           isr_alternating_ready).
Defined.

(** C4.  Whatever the machine held before, after bring-up USART1_BRR reads
    69, which is the assumed clock 8000000 divided by the baud rate 115200
    rounded down, and that one value is the only store bring-up makes to
    the register. *)
Theorem bring_up_baud_divisor (m : machine) :
  load USART1_BRR (bring_up m) = assumed_clock_hz / target_baud /\
  assumed_clock_hz / target_baud = 69 /\
  writes_to USART1_BRR (stores (bring_up m))
  = writes_to USART1_BRR (stores m) ++ [69].
Proof.
  split_all.
  - exact (bring_up_brr m).
  - reflexivity.
  - apply bring_up_writes_brr.
Qed.

Lemma shiftl_1_testbit (n i : Z) :
  0 <= n -> Z.testbit (Z.shiftl 1 n) i = (i =? n).
Proof.
  intro Hn. rewrite Z.shiftl_1_l, Z.pow2_bits_eqb by exact Hn.
  apply Z.eqb_sym.
Qed.

Lemma enable_clocks_frame (m : machine) (r : reg) :
  r <> RCC_AHBENR -> r <> RCC_APB2ENR -> load r (enable_clocks m) = load r m.
Proof.
  intros H1 H2. unfold_bring_up. now rewrite !load_store_other by assumption.
Qed.

(** C5.  For every initial value of RCC_AHBENR and RCC_APB2ENR, the
    clock-enable step is a read-modify-write: afterwards bits 17 and 21 of
    RCC_AHBENR and bit 14 of RCC_APB2ENR are set, every bit of the two
    registers that was set before is still set, and every other bit is
    exactly as it was - bit [i] of RCC_AHBENR reads set if and only if [i]
    is 17 or 21 or the bit was set before, and likewise bit [i] of
    RCC_APB2ENR with 14 - while no other register is changed; the rest of
    bring-up leaves both registers as that step left them. *)
Theorem enable_clocks_sets_and_preserves (m : machine) :
  Z.testbit (load RCC_AHBENR (enable_clocks m)) 17 = true /\
  Z.testbit (load RCC_AHBENR (enable_clocks m)) 21 = true /\
  Z.testbit (load RCC_APB2ENR (enable_clocks m)) 14 = true /\
  (forall i, 0 <= i < 32 ->
     Z.testbit (load RCC_AHBENR m) i = true ->
     Z.testbit (load RCC_AHBENR (enable_clocks m)) i = true) /\
  (forall i, 0 <= i < 32 ->
     Z.testbit (load RCC_APB2ENR m) i = true ->
     Z.testbit (load RCC_APB2ENR (enable_clocks m)) i = true) /\
  (forall i, 0 <= i < 32 ->
     Z.testbit (load RCC_AHBENR (enable_clocks m)) i
     = ((i =? 17) || (i =? 21) || Z.testbit (load RCC_AHBENR m) i)) /\
  (forall i, 0 <= i < 32 ->
     Z.testbit (load RCC_APB2ENR (enable_clocks m)) i
     = ((i =? 14) || Z.testbit (load RCC_APB2ENR m) i)) /\
  (forall r, r <> RCC_AHBENR -> r <> RCC_APB2ENR ->
     load r (enable_clocks m) = load r m) /\
  load RCC_AHBENR (bring_up m) = load RCC_AHBENR (enable_clocks m) /\
  load RCC_APB2ENR (bring_up m) = load RCC_APB2ENR (enable_clocks m).
Proof.
  destruct (bring_up_rcc m) as [Hahb Hapb].
  assert (Ha : forall i, 0 <= i < 32 ->
             Z.testbit (load RCC_AHBENR (enable_clocks m)) i
             = ((i =? 17) || (i =? 21) || Z.testbit (load RCC_AHBENR m) i)).
  { intros i Hi. rewrite enable_clocks_ahbenr, u32_testbit by exact Hi.
    unfold RCC_AHBENR_GPIOAEN, RCC_AHBENR_GPIOEEN.
    rewrite !Z.lor_spec, !shiftl_1_testbit by lia.
    now destruct (Z.testbit (load RCC_AHBENR m) i), (i =? 17), (i =? 21). }
  assert (Hb : forall i, 0 <= i < 32 ->
             Z.testbit (load RCC_APB2ENR (enable_clocks m)) i
             = ((i =? 14) || Z.testbit (load RCC_APB2ENR m) i)).
  { intros i Hi. rewrite enable_clocks_apb2enr, u32_testbit by exact Hi.
    unfold RCC_APB2ENR_USART1EN.
    rewrite Z.lor_spec, shiftl_1_testbit by lia.
    now destruct (Z.testbit (load RCC_APB2ENR m) i), (i =? 14). }
  split_all; try assumption.
  - now rewrite Ha by lia.
  - now rewrite Ha by lia.
  - now rewrite Hb by lia.
  - intros i Hi H. rewrite Ha, H by exact Hi. apply orb_true_r.
  - intros i Hi H. rewrite Hb, H by exact Hi. apply orb_true_r.
  - intros r H1 H2. now apply enable_clocks_frame.
Qed.

Lemma enable_clocks_sets_and_preserves_witness :
  Z.testbit (load RCC_AHBENR busy_machine) 16 = true /\
  Z.testbit (load RCC_AHBENR (enable_clocks busy_machine)) 16 = true /\
  Z.testbit (load RCC_APB2ENR busy_machine) 0 = true /\
  Z.testbit (load RCC_APB2ENR (enable_clocks busy_machine)) 0 = true /\
  Z.testbit (load RCC_AHBENR (enable_clocks busy_machine)) 1
  = ((1 =? 17) || (1 =? 21) || Z.testbit (load RCC_AHBENR busy_machine) 1) /\
  Z.testbit (load RCC_APB2ENR (enable_clocks reset_machine)) 13
  = ((13 =? 14) || Z.testbit (load RCC_APB2ENR reset_machine) 13) /\
  load GPIOE_ODR (enable_clocks busy_machine) = load GPIOE_ODR busy_machine.
Proof.
  destruct (enable_clocks_sets_and_preserves busy_machine)
    as (_ & _ & _ & Hahb & Hapb & Ha & _ & Hfr & _).
  destruct (enable_clocks_sets_and_preserves reset_machine)
    as (_ & _ & _ & _ & _ & _ & Hb & _).
  split_all.
  - reflexivity.
  - apply (Hahb 16); [lia | reflexivity].
  - reflexivity.
  - apply (Hapb 0); [lia | reflexivity].
  - apply (Ha 1). lia.
  - apply (Hb 13). lia.
  - apply (Hfr GPIOE_ODR); discriminate.
Defined.

(** C6.  Each completed press-release gesture inverts the LED level, so two
    gestures in a row bring the LED, and the whole output data register as a
    32-bit value, back to where they were, whatever the level was. *)
Theorem led_toggle_involution (isr : nat -> Z) (m : machine) (c1 c2 : list Z) :
  eventually_ready isr ->
  press_release c1 -> press_release c2 ->
  exists f0 m1 m2,
    (forall fuel, (f0 <= fuel)%nat ->
                  main_loop isr fuel c1 0 m = Some (m1, 0) /\
                  main_loop isr fuel (c1 ++ c2) 0 m = Some (m2, 0)) /\
    led_level m1 = negb (led_level m) /\
    led_level m2 = led_level m /\
    load GPIOE_ODR m2 = u32 (load GPIOE_ODR m).
Proof.
  intros ready H1 H2.
  destruct (main_loop_two_gestures isr ready c1 c2 m H1 H2)
    as (f0 & m1 & m2 & Hrun & R1 & R2).
  exists f0, m1, m2. split_all; try apply Hrun; try assumption.
  - now apply released_led.
  - rewrite (released_led _ _ R2), (released_led _ _ R1). apply negb_involutive.
  - destruct R1 as (_ & O1 & _), R2 as (_ & O2 & _).
    rewrite O2, O1. apply u32_lxor_twice.
Qed.

Lemma press_release_010 : press_release [0; 1; 0].
Proof.
  exists [0], [1], [0]. repeat split; auto; discriminate.
Defined.

Lemma press_release_2310 : press_release [2; 3; 1; 0].
Proof.
  exists [2], [3; 1], [0]. repeat split; auto; discriminate.
Defined.

Lemma led_toggle_involution_witness :
  exists f0 m1 m2,
    (forall fuel, (f0 <= fuel)%nat ->
       main_loop isr_alternating fuel [0; 1; 0] 0 busy_machine
       = Some (m1, 0) /\
       main_loop isr_alternating fuel ([0; 1; 0] ++ [2; 3; 1; 0]) 0 busy_machine
       = Some (m2, 0)) /\
    led_level m1 = negb (led_level busy_machine) /\
    led_level m2 = led_level busy_machine /\
    load GPIOE_ODR m2 = u32 (load GPIOE_ODR busy_machine).
Proof.
  exact (led_toggle_involution isr_alternating busy_machine
           [0; 1; 0] [2; 3; 1; 0]
           isr_alternating_ready press_release_010 press_release_2310).
Defined.

(** C7.  On samples that are all low from Released, and on samples that are
    all high from Pressed, the loop returns the machine it was given - no
    byte sent, no store to the LED register - and the flag it was given,
    whatever the length of the sequence and the other bits of GPIOA_IDR. *)
Theorem no_edge_no_effect (isr : nat -> Z) (fuel : nat) (idrs : list Z)
        (m : machine) :
  (Forall (fun v => sample v = 0) idrs ->
   main_loop isr fuel idrs 0 m = Some (m, 0)) /\
  (Forall (fun v => sample v = 1) idrs ->
   main_loop isr fuel idrs 1 m = Some (m, 1)).
Proof.
  split; intro H.
  - now apply main_loop_low.
  - now apply main_loop_high.
Qed.

Lemma no_edge_no_effect_witness :
  main_loop isr_alternating 0 [0; 0; 0; 0] 0 busy_machine
  = Some (busy_machine, 0) /\
  main_loop isr_alternating 0 [1; 1; 1; 1] 1 busy_machine
  = Some (busy_machine, 1).
Proof.
  split.
  - apply (no_edge_no_effect isr_alternating 0 [0; 0; 0; 0] busy_machine).
    repeat constructor.
  - apply (no_edge_no_effect isr_alternating 0 [1; 1; 1; 1] busy_machine).
    repeat constructor.
Defined.

(** C8.  With [button_is_pressed] starting at 0, every run of the loop that
    completes its last iteration leaves the flag equal to the level sampled
    in that iteration, in the loop taken alone and in [main] from its first
    line; and once the hardware keeps reporting TXE every iteration does
    complete. *)
Theorem flag_tracks_last_sample (isr : nat -> Z) (idrs : list Z) (v : Z)
        (m : machine) :
  eventually_ready isr ->
  (forall fuel m' p',
      main_loop isr fuel (idrs ++ [v]) 0 m = Some (m', p') -> p' = sample v) /\
  (forall fuel m' p',
      main isr fuel (idrs ++ [v]) m = Some (m', p') -> p' = sample v) /\
  exists f0 m',
    forall fuel, (f0 <= fuel)%nat ->
      main_loop isr fuel (idrs ++ [v]) 0 m = Some (m', sample v).
Proof.
  intro ready.
  assert (Hflag : forall fuel m0 m' p',
             main_loop isr fuel (idrs ++ [v]) 0 m0 = Some (m', p') ->
             p' = sample v).
  { intros fuel m0 m' p' H. rewrite main_loop_app in H.
    destruct (main_loop isr fuel idrs 0 m0) as [[m1 p1]|] eqn:E1;
      [|discriminate].
    simpl in H.
    destruct (loop_body isr fuel v p1 m1) as [[m2 p2]|] eqn:E2;
      [|discriminate].
    simpl in H. injection H as _ <-.
    eapply loop_body_flag; [|exact E2].
    eapply main_loop_flag; [|exact E1]. now left. }
  split; [intros fuel m' p'; apply Hflag|].
  split.
  { intros fuel m' p' H. unfold main in H.
    destruct (startup isr fuel m) as [m0|]; [|discriminate].
    simpl in H. exact (Hflag _ _ _ _ H). }
  destruct (main_loop_total isr ready (idrs ++ [v]) 0 m) as (f0 & [m' p'] & E).
  exists f0, m'. intros fuel Hle.
  rewrite <- (Hflag _ _ _ _ E).
  now apply (main_loop_mono isr f0).
Qed.

Lemma flag_tracks_last_sample_witness :
  eventually_ready isr_alternating /\
  (forall fuel m' p',
      main_loop isr_alternating fuel ([0; 1; 0; 1; 1; 0] ++ [3]) 0 reset_machine
      = Some (m', p') -> p' = sample 3) /\
  (forall fuel m' p',
      main isr_alternating fuel ([0; 1; 0; 1; 1; 0] ++ [3]) reset_machine
      = Some (m', p') -> p' = sample 3) /\
  exists f0 m',
    forall fuel, (f0 <= fuel)%nat ->
      main_loop isr_alternating fuel ([0; 1; 0; 1; 1; 0] ++ [3]) 0 reset_machine
      = Some (m', sample 3).
Proof.
  split; [exact isr_alternating_ready|].
  exact (flag_tracks_last_sample isr_alternating [0; 1; 0; 1; 1; 0] 3
           reset_machine isr_alternating_ready).
Defined.

(** C9.  The last bring-up step stores to USART1_CR1 without reading it:
    whatever the register held, afterwards it reads exactly
    USART_CR1_TE | USART_CR1_UE = 9, so every bit other than bits 0 and 3
    is clear even if it was set before; bring-up makes that one store to the
    register. *)
Theorem cr1_plain_store (m : machine) :
  load USART1_CR1 (configure_usart m) = Z.lor USART_CR1_TE USART_CR1_UE /\
  load USART1_CR1 (bring_up m) = Z.lor USART_CR1_TE USART_CR1_UE /\
  Z.lor USART_CR1_TE USART_CR1_UE = 0x9 /\
  (forall i, i <> 0 -> i <> 3 ->
             Z.testbit (load USART1_CR1 (bring_up m)) i = false) /\
  writes_to USART1_CR1 (stores (bring_up m))
  = writes_to USART1_CR1 (stores m) ++ [0x9].
Proof.
  split_all.
  - unfold configure_usart. now rewrite load_store_same.
  - exact (bring_up_cr1 m).
  - reflexivity.
  - intros i H0 H3. rewrite bring_up_cr1.
    destruct (Z.ltb_spec i 0) as [Hneg|Hpos];
      [now apply Z.testbit_neg_r|].
    destruct (Z.ltb_spec i 4) as [Hlt|Hge].
    + assert (i = 1 \/ i = 2) as [-> | ->] by lia; reflexivity.
    + change 9 with (9 mod 2 ^ 4). apply Z.mod_pow2_bits_high. lia.
  - apply bring_up_writes_cr1.
Qed.

Lemma cr1_plain_store_witness :
  Z.testbit (load USART1_CR1 busy_machine) 16 = true /\
  Z.testbit (load USART1_CR1 (bring_up busy_machine)) 16 = false.
Proof.
  destruct (cr1_plain_store busy_machine) as (_ & _ & _ & Hclr & _).
  split; [reflexivity|].
  apply (Hclr 16); lia.
Defined.

(** C10.  Once the hardware keeps reporting TXE, [main] reaches the loop
    with the greeting sent and, as its last store, GPIOE_ODR or-ed with
    bit 9: the LED level is high whatever the register held, every other
    bit of the register is as before; from there the first press-release
    gesture leaves the LED low and the second high again. *)
Theorem led_high_at_loop_entry (isr : nat -> Z) (m : machine) :
  eventually_ready isr ->
  exists f0 m0,
    (forall fuel, (f0 <= fuel)%nat -> startup isr fuel m = Some m0) /\
    stores m0 = stores (bring_up m) ++ map (pair USART1_TDR) hello_world_crlf
                  ++ [(GPIOE_ODR,
                       u32 (Z.lor (load GPIOE_ODR m) (Z.shiftl 1 9)))] /\
    load GPIOE_ODR m0 = u32 (Z.lor (load GPIOE_ODR m) (Z.shiftl 1 9)) /\
    led_level m0 = true /\
    (forall i, 0 <= i < 32 -> i <> 9 ->
       Z.testbit (load GPIOE_ODR m0) i = Z.testbit (load GPIOE_ODR m) i) /\
    (forall c1 c2, press_release c1 -> press_release c2 ->
       exists f1 m1 m2,
         (forall fuel, (f1 <= fuel)%nat ->
                       main isr fuel c1 m = Some (m1, 0) /\
                       main isr fuel (c1 ++ c2) m = Some (m2, 0)) /\
         led_level m1 = false /\ led_level m2 = true).
Proof.
  intro ready.
  destruct (startup_runs isr ready m) as (f0 & m0 & Hrun & Hst).
  pose proof (started_led _ _ Hst) as Hled.
  exists f0, m0. split_all; try apply Hst; try assumption.
  - intros i Hi Hne. destruct Hst as (_ & -> & _).
    rewrite set_bit9 by exact Hi.
    destruct (Z.eqb_spec i 9); [contradiction | reflexivity].
  - intros c1 c2 H1 H2.
    destruct (main_loop_two_gestures isr ready c1 c2 m0 H1 H2)
      as (f1 & m1 & m2 & Hloop & R1 & R2).
    exists (Nat.max f0 f1), m1, m2. split_all.
    + intros fuel Hle. unfold main. rewrite (Hrun fuel) by lia. simpl.
      apply Hloop. lia.
    + now rewrite (released_led _ _ R1), Hled.
    + now rewrite (released_led _ _ R2), (released_led _ _ R1), Hled.
Qed.

Lemma led_high_at_loop_entry_witness :
  eventually_ready isr_alternating /\
  exists f0 m0,
    (forall fuel, (f0 <= fuel)%nat ->
                  startup isr_alternating fuel reset_machine = Some m0) /\
    stores m0 = stores (bring_up reset_machine)
                  ++ map (pair USART1_TDR) hello_world_crlf
                  ++ [(GPIOE_ODR,
                       u32 (Z.lor (load GPIOE_ODR reset_machine)
                                  (Z.shiftl 1 9)))] /\
    load GPIOE_ODR m0
    = u32 (Z.lor (load GPIOE_ODR reset_machine) (Z.shiftl 1 9)) /\
    led_level m0 = true /\
    (forall i, 0 <= i < 32 -> i <> 9 ->
       Z.testbit (load GPIOE_ODR m0) i
       = Z.testbit (load GPIOE_ODR reset_machine) i) /\
    (forall c1 c2, press_release c1 -> press_release c2 ->
       exists f1 m1 m2,
         (forall fuel, (f1 <= fuel)%nat ->
            main isr_alternating fuel c1 reset_machine = Some (m1, 0) /\
            main isr_alternating fuel (c1 ++ c2) reset_machine
            = Some (m2, 0)) /\
         led_level m1 = false /\ led_level m2 = true).
Proof.
  split; [exact isr_alternating_ready|].
  exact (led_high_at_loop_entry isr_alternating reset_machine
           isr_alternating_ready).
Defined.

(** * Further properties of the code *)

(** ** The spin-wait of [uart_putc] *)

Lemma iter_tick (n : nat) (m : machine) :
  regs (Nat.iter n tick m) = regs m /\
  stores (Nat.iter n tick m) = stores m /\
  isr_reads (Nat.iter n tick m) = (isr_reads m + n)%nat.
Proof.
  induction n as [|n (R & S & I)]; simpl.
  - now rewrite Nat.add_0_r.
  - rewrite R, S, I. split_all; try reflexivity; lia.
Qed.

Lemma iter_tick_shift (n : nat) (m : machine) :
  Nat.iter n tick (tick m) = Nat.iter (S n) tick m.
Proof. induction n as [|n IH]; simpl; [reflexivity|]. now rewrite IH. Qed.

Section Spin.

Variable isr : nat -> Z.

Lemma uart_putc_starved (c : ascii) (fuel : nat) :
  forall (k : nat) (m : machine),
    (forall j, (j < k)%nat ->
       (Z.land (isr (isr_reads m + j)%nat) USART_ISR_TXE =? 0) = true) ->
    (fuel <= k)%nat -> uart_putc isr fuel c m = None.
Proof.
  induction fuel as [|fuel IH]; intros k m Hclear Hle; simpl; [reflexivity|].
  destruct k as [|k]; [lia|].
  pose proof (Hclear 0%nat ltac:(lia)) as H0. rewrite Nat.add_0_r in H0.
  rewrite H0. apply (IH k); [|lia].
  intros j Hj. simpl. rewrite <- Nat.add_succ_r. apply Hclear. lia.
Qed.

Lemma uart_putc_after (c : ascii) (k : nat) :
  forall (m : machine) (fuel : nat),
    (forall j, (j < k)%nat ->
       (Z.land (isr (isr_reads m + j)%nat) USART_ISR_TXE =? 0) = true) ->
    (Z.land (isr (isr_reads m + k)%nat) USART_ISR_TXE =? 0) = false ->
    (k < fuel)%nat ->
    uart_putc isr fuel c m
    = Some (store USART1_TDR (char_code c) (Nat.iter (S k) tick m)).
Proof.
  induction k as [|k IH]; intros m fuel Hclear Hset Hlt;
    (destruct fuel as [|fuel]; [lia|]).
  - rewrite Nat.add_0_r in Hset. simpl. now rewrite Hset.
  - pose proof (Hclear 0%nat ltac:(lia)) as H0. rewrite Nat.add_0_r in H0.
    change (uart_putc isr (S fuel) c m)
      with (if Z.land (isr (isr_reads m)) USART_ISR_TXE =? 0
            then uart_putc isr fuel c (tick m)
            else Some (store USART1_TDR (char_code c) (tick m))).
    rewrite H0, (IH (tick m) fuel), iter_tick_shift; [reflexivity | | | lia].
    + intros j Hj. simpl. rewrite <- Nat.add_succ_r. apply Hclear. lia.
    + simpl. now rewrite <- Nat.add_succ_r.
Qed.

Lemma uart_putc_inv (c : ascii) (fuel : nat) :
  forall (m m' : machine),
    uart_putc isr fuel c m = Some m' ->
    exists k,
      (k < fuel)%nat /\
      (forall j, (j < k)%nat ->
         (Z.land (isr (isr_reads m + j)%nat) USART_ISR_TXE =? 0) = true) /\
      (Z.land (isr (isr_reads m + k)%nat) USART_ISR_TXE =? 0) = false /\
      m' = store USART1_TDR (char_code c) (Nat.iter (S k) tick m).
Proof.
  induction fuel as [|fuel IH]; intros m m' H; simpl in H; [discriminate|].
  destruct (Z.land (isr (isr_reads m)) USART_ISR_TXE =? 0) eqn:E.
  - destruct (IH _ _ H) as (k & Hk & Hclear & Hset & ->).
    exists (S k). split_all.
    + lia.
    + intros [|j] Hj; [now rewrite Nat.add_0_r|].
      rewrite Nat.add_succ_r. apply (Hclear j). lia.
    + now rewrite Nat.add_succ_r.
    + now rewrite iter_tick_shift.
  - exists 0%nat. injection H as <-. split_all.
    + lia.
    + intros j Hj. lia.
    + now rewrite Nat.add_0_r.
    + reflexivity.
Qed.

Lemma store_tdr_facts (c : ascii) (n : nat) (m : machine) :
  let m' := store USART1_TDR (char_code c) (Nat.iter n tick m) in
  isr_reads m' = (isr_reads m + n)%nat /\
  stores m' = stores m ++ [(USART1_TDR, char_code c)] /\
  load USART1_TDR m' = char_code c /\
  (forall r, r <> USART1_TDR -> load r m' = load r m).
Proof.
  destruct (iter_tick n m) as (R & S & I). cbv zeta. split_all.
  - exact I.
  - unfold store. simpl stores. now rewrite S, u32_char_code.
  - rewrite load_store_same. apply u32_char_code.
  - intros r Hr. rewrite load_store_other by exact Hr. unfold load.
    now rewrite R.
Qed.

Lemma uart_puts_starved (s : string) (m : machine) (fuel : nat) :
  (forall j, (Z.land (isr (isr_reads m + j)%nat) USART_ISR_TXE =? 0) = true) ->
  c_chars s <> [] -> uart_puts isr fuel s m = None.
Proof.
  intros Hdead Hne. destruct s as [|c s]; simpl in *; [congruence|].
  destruct (Ascii.eqb c NUL); [congruence|].
  assert (Hc : forall c', uart_putc isr fuel c' m = None).
  { intro c'. apply (uart_putc_starved c' fuel fuel m); [|lia].
    intros j _. apply Hdead. }
  destruct (Ascii.eqb c LF); simpl; now rewrite Hc.
Qed.

End Spin.

(** X1.  [uart_putc] polls the status register until TXE shows: if the next
    [k] reads come back with TXE clear and the one after with TXE set, any
    bound of at most [k] polls is not enough, and with more the call
    returns after exactly [k+1] reads, having stored the character to
    USART1_TDR once and changed no other register. *)
Theorem uart_putc_spins_until_txe (isr : nat -> Z) (c : ascii) (m : machine)
        (k : nat) :
  (forall j, (j < k)%nat ->
     (Z.land (isr (isr_reads m + j)%nat) USART_ISR_TXE =? 0) = true) ->
  (Z.land (isr (isr_reads m + k)%nat) USART_ISR_TXE =? 0) = false ->
  (forall fuel, (fuel <= k)%nat -> uart_putc isr fuel c m = None) /\
  exists m',
    (forall fuel, (k < fuel)%nat -> uart_putc isr fuel c m = Some m') /\
    isr_reads m' = (isr_reads m + S k)%nat /\
    stores m' = stores m ++ [(USART1_TDR, char_code c)] /\
    load USART1_TDR m' = char_code c /\
    (forall r, r <> USART1_TDR -> load r m' = load r m).
Proof.
  intros Hclear Hset. split.
  - intros fuel Hle. now apply (uart_putc_starved isr c fuel k m).
  - exists (store USART1_TDR (char_code c) (Nat.iter (S k) tick m)). split.
    + intros fuel Hlt. now apply uart_putc_after.
    + apply (store_tdr_facts c (S k) m).
Qed.

Lemma uart_putc_spins_until_txe_witness :
  (forall fuel, (fuel <= 2)%nat ->
     uart_putc isr_late fuel "a" reset_machine = None) /\
  exists m',
    (forall fuel, (2 < fuel)%nat ->
       uart_putc isr_late fuel "a" reset_machine = Some m') /\
    isr_reads m' = (isr_reads reset_machine + 3)%nat /\
    stores m' = stores reset_machine ++ [(USART1_TDR, char_code "a")] /\
    load USART1_TDR m' = char_code "a" /\
    (forall r, r <> USART1_TDR -> load r m' = load r reset_machine).
Proof.
  apply (uart_putc_spins_until_txe isr_late "a" reset_machine 2).
  - intros j Hj. destruct j as [|[|j]]; [reflexivity | reflexivity | lia].
  - reflexivity.
Defined.



(** X3.  There is no timeout: if the hardware never shows TXE from the
    current read on, [uart_putc] does not return whatever the bound, and
    neither does the start of [main] nor [main] itself, because the greeting
    has to go out first. *)
Theorem uart_putc_blocks_without_txe (isr : nat -> Z) (m : machine) :
  (forall j, (Z.land (isr (isr_reads m + j)%nat) USART_ISR_TXE =? 0) = true) ->
  forall fuel,
    (forall c, uart_putc isr fuel c m = None) /\
    startup isr fuel m = None /\
    (forall idrs, main isr fuel idrs m = None).
Proof.
  intros Hdead fuel.
  assert (Hs : startup isr fuel m = None).
  { unfold startup.
    rewrite (uart_puts_starved isr greeting (bring_up m) fuel);
      [reflexivity | exact Hdead | discriminate]. }
  split_all.
  - intro c. apply (uart_putc_starved isr c fuel fuel m); [|lia].
    intros j _. apply Hdead.
  - exact Hs.
  - intro idrs. unfold main. now rewrite Hs.
Qed.

Lemma uart_putc_blocks_without_txe_witness :
  (forall c, uart_putc isr_dead 1000 c busy_machine = None) /\
  startup isr_dead 1000 busy_machine = None /\
  (forall idrs, main isr_dead 1000 idrs busy_machine = None).
Proof.
  apply (uart_putc_blocks_without_txe isr_dead busy_machine).
  intro j. reflexivity.
Defined.

(** X4.  [uart_puts] needs the hardware exactly when the string is not
    empty: on an empty C string (nothing before the first NUL) it returns
    the machine as it was, with no status read and no store, for any bound
    and any hardware; on any other string it does not return while the
    hardware never shows TXE. *)
Theorem uart_puts_empty_or_blocked (s : string) (m : machine) :
  (c_chars s = [] ->
   forall isr fuel, uart_puts isr fuel s m = Some m) /\
  (c_chars s <> [] ->
   forall isr,
     (forall j,
        (Z.land (isr (isr_reads m + j)%nat) USART_ISR_TXE =? 0) = true) ->
     forall fuel, uart_puts isr fuel s m = None).
Proof.
  split.
  - intros He isr fuel. destruct s as [|c s]; simpl in *; [reflexivity|].
    destruct (Ascii.eqb c NUL); [reflexivity | discriminate].
  - intros Hne isr Hdead fuel. now apply uart_puts_starved.
Qed.

Lemma uart_puts_empty_or_blocked_witness :
  uart_puts isr_dead 0 (String NUL "abc") busy_machine = Some busy_machine /\
  uart_puts isr_dead 7 "abc" busy_machine = None.
Proof.
  split.
  - apply (uart_puts_empty_or_blocked (String NUL "abc") busy_machine).
    reflexivity.
  - apply (uart_puts_empty_or_blocked "abc" busy_machine).
    + discriminate.
    + intro j. reflexivity.
Defined.

(** ** What [uart_puts] puts on the wire *)

Lemma char_code_inj (a b : ascii) : char_code a = char_code b -> a = b.
Proof.
  unfold char_code. intro H. apply N2Z.inj in H.
  rewrite <- (ascii_N_embedding a), <- (ascii_N_embedding b). now rewrite H.
Qed.

Lemma char_code_range (c : ascii) : 0 <= char_code c < 256.
Proof. unfold char_code. pose proof (N_ascii_bounded c). lia. Qed.

Lemma char_code_lf (c : ascii) : (char_code c =? 10) = Ascii.eqb c LF.
Proof.
  destruct (Ascii.eqb_spec c LF) as [->|Hne]; [reflexivity|].
  apply Z.eqb_neq. intro H. apply Hne. now apply char_code_inj.
Qed.

Lemma char_code_cr (c : ascii) : (char_code c =? 13) = Ascii.eqb c CR.
Proof.
  destruct (Ascii.eqb_spec c CR) as [->|Hne]; [reflexivity|].
  apply Z.eqb_neq. intro H. apply Hne. now apply char_code_inj.
Qed.

Lemma c_chars_not_nul (s : string) : Forall (fun c => c <> NUL) (c_chars s).
Proof.
  induction s as [|c s IH]; simpl; [constructor|].
  destruct (Ascii.eqb_spec c NUL); constructor; assumption.
Qed.

Lemma crlf_lf_guarded (cs : list ascii) :
  forall prev, lf_guarded prev (map char_code (crlf cs)) = true.
Proof.
  induction cs as [|c cs IH]; intro prev; [reflexivity|].
  rewrite crlf_cons. destruct (Ascii.eqb c LF) eqn:E.
  - simpl. apply IH.
  - simpl. rewrite char_code_lf, E. simpl. apply IH.
Qed.

Lemma lf_guarded_nth (bs : list Z) :
  forall prev i,
    lf_guarded prev bs = true -> nth_error bs i = Some 10 ->
    (i = 0%nat /\ prev = 13) \/
    (exists j, i = S j /\ nth_error bs j = Some 13).
Proof.
  induction bs as [|b bs IH]; intros prev i Hg Hi.
  - destruct i; discriminate.
  - simpl in Hg. apply andb_true_iff in Hg. destruct Hg as [Hb Hg].
    destruct i as [|i]; simpl in Hi.
    + injection Hi as ->. left. split; [reflexivity|].
      simpl in Hb. now apply Z.eqb_eq.
    + right. destruct (IH b i Hg Hi) as [[-> ->] | (j & -> & Hj)].
      * exists 0%nat. split; reflexivity.
      * exists (S j). split; [reflexivity | exact Hj].
Qed.

Lemma crlf_length (cs : list ascii) :
  List.length (crlf cs) = (List.length cs + count_occ ascii_dec cs LF)%nat.
Proof.
  induction cs as [|c cs IH]; [reflexivity|].
  rewrite crlf_cons, List.length_app, IH. simpl count_occ.
  destruct (Ascii.eqb_spec c LF) as [->|Hne];
    destruct (ascii_dec _ LF); try congruence; simpl; lia.
Qed.

Lemma crlf_no_lf (cs : list ascii) :
  Forall (fun c => c <> LF) cs -> crlf cs = cs.
Proof.
  induction 1 as [|c cs Hc _ IH]; [reflexivity|].
  rewrite crlf_cons, IH. now destruct (Ascii.eqb_spec c LF).
Qed.

Lemma crlf_strip_cr (cs : list ascii) :
  Forall (fun c => c <> CR) cs ->
  filter (fun b => negb (b =? 13)) (map char_code (crlf cs))
  = map char_code cs.
Proof.
  induction 1 as [|c cs Hc _ IH]; [reflexivity|].
  rewrite crlf_cons. destruct (Ascii.eqb_spec c LF) as [->|Hne].
  - simpl. now rewrite IH.
  - simpl. rewrite char_code_cr.
    destruct (Ascii.eqb_spec c CR); [contradiction|]. simpl. now rewrite IH.
Qed.

Lemma crlf_bytes (cs : list ascii) :
  Forall (fun c => c <> NUL) cs ->
  Forall (fun b => 0 < b < 256) (map char_code (crlf cs)).
Proof.
  assert (Hpos : forall c, c <> NUL -> 0 < char_code c < 256).
  { intros c Hc. pose proof (char_code_range c).
    assert (char_code c <> 0); [|lia].
    intro H0. apply Hc. now apply char_code_inj. }
  induction 1 as [|c cs Hc _ IH]; [constructor|].
  rewrite crlf_cons, map_app. apply Forall_app. split; [|exact IH].
  destruct (Ascii.eqb c LF); repeat constructor; try lia.
  all: now apply Hpos.
Qed.

Section Wire.

Variable isr : nat -> Z.

Lemma uart_puts_out (fuel : nat) (s : string) (m m' : machine) :
  uart_puts isr fuel s m = Some m' ->
  uart_tx m' = uart_tx m ++ map char_code (crlf (c_chars s)).
Proof. intro H. eapply sent_uart_tx, uart_puts_sent, H. Qed.

Lemma uart_puts_app_clean (fuel : nat) (s1 s2 : string) :
  Forall (fun c => c <> NUL) (list_ascii_of_string s1) ->
  forall m,
    uart_puts isr fuel (s1 ++ s2) m
    = (m1 <- uart_puts isr fuel s1 m ;; uart_puts isr fuel s2 m1).
Proof.
  induction s1 as [|c s1 IH]; intros Hn m; [reflexivity|].
  inversion Hn as [|? ? Hc Hs]; subst. simpl.
  destruct (Ascii.eqb_spec c NUL); [contradiction|].
  destruct (if Ascii.eqb c LF then uart_putc isr fuel CR m else Some m)
    as [m1|]; simpl; [|reflexivity].
  destruct (uart_putc isr fuel c m1) as [m2|]; simpl; [|reflexivity].
  now apply IH.
Qed.

Lemma uart_puts_app_cut (fuel : nat) (s1 s2 : string) :
  In NUL (list_ascii_of_string s1) ->
  forall m, uart_puts isr fuel (s1 ++ s2) m = uart_puts isr fuel s1 m.
Proof.
  induction s1 as [|c s1 IH]; intros Hin m; [destruct Hin|]. simpl.
  destruct (Ascii.eqb_spec c NUL) as [->|Hne]; [reflexivity|].
  destruct Hin as [Heq|Hin]; [congruence|].
  destruct (if Ascii.eqb c LF then uart_putc isr fuel CR m else Some m)
    as [m1|]; simpl; [|reflexivity].
  destruct (uart_putc isr fuel c m1) as [m2|]; simpl; [|reflexivity].
  now apply IH.
Qed.

Lemma uart_putc_reads (fuel : nat) (c : ascii) (m m' : machine) :
  uart_putc isr fuel c m = Some m' ->
  (isr_reads m + 1 <= isr_reads m' <= isr_reads m + fuel)%nat /\
  ((forall n, (Z.land (isr n) USART_ISR_TXE =? 0) = false) ->
   isr_reads m' = (isr_reads m + 1)%nat).
Proof.
  intro H. destruct (uart_putc_inv isr c fuel m m' H)
    as (k & Hk & Hclear & Hset & ->).
  destruct (store_tdr_facts c (S k) m) as (I & _). rewrite I.
  split; [lia|]. intro Hall.
  destruct k as [|k]; [lia|].
  pose proof (Hclear 0%nat ltac:(lia)) as H0. rewrite Hall in H0.
  discriminate.
Qed.

Lemma uart_puts_reads (fuel : nat) (s : string) :
  forall m m',
    uart_puts isr fuel s m = Some m' ->
    (isr_reads m + List.length (crlf (c_chars s)) <= isr_reads m'
     <= isr_reads m + List.length (crlf (c_chars s)) * fuel)%nat /\
    ((forall n, (Z.land (isr n) USART_ISR_TXE =? 0) = false) ->
     isr_reads m' = (isr_reads m + List.length (crlf (c_chars s)))%nat).
Proof.
  induction s as [|c s IH]; intros m m' H; simpl in H.
  - injection H as <-. simpl. split; lia.
  - simpl c_chars. destruct (Ascii.eqb c NUL).
    + injection H as <-. simpl. split; lia.
    + rewrite crlf_cons, List.length_app.
      destruct (Ascii.eqb c LF).
      * destruct (uart_putc isr fuel CR m) as [m1|] eqn:E1;
          [simpl in H | discriminate].
        destruct (uart_putc isr fuel c m1) as [m2|] eqn:E2;
          [simpl in H | discriminate].
        destruct (uart_putc_reads _ _ _ _ E1) as [B1 A1].
        destruct (uart_putc_reads _ _ _ _ E2) as [B2 A2].
        destruct (IH _ _ H) as [B3 A3].
        simpl List.length. split; [lia|].
        intro Hall. rewrite (A3 Hall), (A2 Hall), (A1 Hall). lia.
      * simpl in H.
        destruct (uart_putc isr fuel c m) as [m2|] eqn:E2;
          [simpl in H | discriminate].
        destruct (uart_putc_reads _ _ _ _ E2) as [B2 A2].
        destruct (IH _ _ H) as [B3 A3].
        simpl List.length. split; [lia|].
        intro Hall. rewrite (A3 Hall), (A2 Hall). lia.
Qed.

End Wire.

Lemma returns_some {A : Type} (o : option A) :
  option_map (fun _ => tt) o = Some tt -> exists a, o = Some a.
Proof. destruct o as [a|]; [eauto | discriminate]. Qed.

(** X5.  Sending a string in two pieces is the same as sending it whole:
    when the first piece holds no NUL, [uart_puts] on the concatenation does
    what [uart_puts] on the first piece followed by [uart_puts] on the second
    does, for the same bound and hardware; when the first piece holds a NUL,
    the second piece is never reached. *)
Theorem uart_puts_append (isr : nat -> Z) (fuel : nat) (s1 s2 : string)
        (m : machine) :
  (Forall (fun c => c <> NUL) (list_ascii_of_string s1) ->
   uart_puts isr fuel (s1 ++ s2) m
   = (m1 <- uart_puts isr fuel s1 m ;; uart_puts isr fuel s2 m1)) /\
  (In NUL (list_ascii_of_string s1) ->
   uart_puts isr fuel (s1 ++ s2) m = uart_puts isr fuel s1 m).
Proof.
  split; intro H.
  - now apply uart_puts_app_clean.
  - now apply uart_puts_app_cut.
Qed.

Lemma uart_puts_append_witness :
  uart_puts isr_alternating 2 ("ab" ++ greeting) reset_machine
  = (m1 <- uart_puts isr_alternating 2 "ab" reset_machine ;;
     uart_puts isr_alternating 2 greeting m1) /\
  uart_puts isr_alternating 2 (String "a" (String NUL "b") ++ greeting)
            reset_machine
  = uart_puts isr_alternating 2 (String "a" (String NUL "b")) reset_machine.
Proof.
  split.
  - apply (uart_puts_append isr_alternating 2 "ab" greeting reset_machine).
    repeat constructor; discriminate.
  - apply (uart_puts_append isr_alternating 2 (String "a" (String NUL "b"))
             greeting reset_machine).
    simpl. auto.
Defined.

(** X6.  Whenever [uart_puts] returns, the bytes it has added to the wire
    number the characters of the string plus one per line feed, and no line
    feed among them is bare: each one comes directly after a carriage
    return. *)
Theorem uart_puts_no_bare_lf (isr : nat -> Z) (fuel : nat) (s : string)
        (m m' : machine) :
  uart_puts isr fuel s m = Some m' ->
  exists out,
    uart_tx m' = uart_tx m ++ out /\
    List.length out
    = (List.length (c_chars s) + count_occ ascii_dec (c_chars s) LF)%nat /\
    (forall i, nth_error out i = Some 10 ->
               exists j, i = S j /\ nth_error out j = Some 13).
Proof.
  intro H. exists (map char_code (crlf (c_chars s))). split_all.
  - now apply (uart_puts_out isr fuel).
  - rewrite length_map. apply crlf_length.
  - intros i Hi.
    destruct (lf_guarded_nth _ 0 i (crlf_lf_guarded (c_chars s) 0) Hi)
      as [[_ Habs] | Hj]; [discriminate | exact Hj].
Qed.

Lemma uart_puts_no_bare_lf_witness :
  exists m' out,
    uart_puts isr_alternating 2 button_msg reset_machine = Some m' /\
    uart_tx m' = uart_tx reset_machine ++ out /\
    List.length out
    = (List.length (c_chars button_msg)
       + count_occ ascii_dec (c_chars button_msg) LF)%nat /\
    (forall i, nth_error out i = Some 10 ->
               exists j, i = S j /\ nth_error out j = Some 13).
Proof.
  destruct (returns_some
              (uart_puts isr_alternating 2 button_msg reset_machine) eq_refl)
    as [m' E].
  destruct (uart_puts_no_bare_lf isr_alternating 2 button_msg reset_machine
              m' E) as (out & H).
  exists m', out. split; [exact E | exact H].
Defined.

(** X7.  Nothing but the carriage returns is added: whenever [uart_puts]
    returns, a string without line feeds has gone out byte for byte, and for
    a string without carriage returns, dropping the carriage returns from
    what went out gives the string back. *)
Theorem uart_puts_passes_through (isr : nat -> Z) (fuel : nat) (s : string)
        (m m' : machine) :
  uart_puts isr fuel s m = Some m' ->
  exists out,
    uart_tx m' = uart_tx m ++ out /\
    (Forall (fun c => c <> LF) (c_chars s) ->
     out = map char_code (c_chars s)) /\
    (Forall (fun c => c <> CR) (c_chars s) ->
     filter (fun b => negb (b =? 13)) out = map char_code (c_chars s)).
Proof.
  intro H. exists (map char_code (crlf (c_chars s))). split_all.
  - now apply (uart_puts_out isr fuel).
  - intro Hlf. now rewrite crlf_no_lf.
  - apply crlf_strip_cr.
Qed.

Lemma uart_puts_passes_through_witness :
  exists m' out,
    uart_puts isr_alternating 2 greeting reset_machine = Some m' /\
    uart_tx m' = uart_tx reset_machine ++ out /\
    filter (fun b => negb (b =? 13)) out = map char_code (c_chars greeting).
Proof.
  destruct (returns_some
              (uart_puts isr_alternating 2 greeting reset_machine) eq_refl)
    as [m' E].
  destruct (uart_puts_passes_through isr_alternating 2 greeting reset_machine
              m' E) as (out & Htx & _ & Hcr).
  exists m', out. split_all; [exact E | exact Htx |].
  apply Hcr. repeat constructor; discriminate.
Defined.

(** X8.  [uart_puts] never transmits the terminating NUL, and every value it
    stores to USART1_TDR is a byte: whenever it returns, each value added to
    the wire lies between 1 and 255. *)
Theorem uart_puts_sends_nonzero_bytes (isr : nat -> Z) (fuel : nat)
        (s : string) (m m' : machine) :
  uart_puts isr fuel s m = Some m' ->
  exists out,
    uart_tx m' = uart_tx m ++ out /\
    Forall (fun b => 0 < b < 256) out.
Proof.
  intro H. exists (map char_code (crlf (c_chars s))). split.
  - now apply (uart_puts_out isr fuel).
  - apply crlf_bytes, c_chars_not_nul.
Qed.

Lemma uart_puts_sends_nonzero_bytes_witness :
  exists m' out,
    uart_puts isr_alternating 2 (String "a" (String NUL "b")) busy_machine
    = Some m' /\
    uart_tx m' = uart_tx busy_machine ++ out /\
    Forall (fun b => 0 < b < 256) out.
Proof.
  destruct (returns_some
              (uart_puts isr_alternating 2 (String "a" (String NUL "b"))
                         busy_machine) eq_refl) as [m' E].
  destruct (uart_puts_sends_nonzero_bytes isr_alternating 2
              (String "a" (String NUL "b")) busy_machine m' E) as (out & H).
  exists m', out. split; [exact E | exact H].
Defined.

(** X9.  Every byte costs at least one status read and at most the poll
    bound: whenever [uart_puts] returns having to send [n] bytes, it has read
    USART1_ISR between [n] and [n * fuel] times, and exactly [n] times when
    the hardware shows TXE on every read. *)
Theorem uart_puts_status_reads (isr : nat -> Z) (fuel : nat) (s : string)
        (m m' : machine) :
  uart_puts isr fuel s m = Some m' ->
  (isr_reads m + List.length (crlf (c_chars s)) <= isr_reads m')%nat /\
  (isr_reads m' <= isr_reads m + List.length (crlf (c_chars s)) * fuel)%nat /\
  ((forall n, (Z.land (isr n) USART_ISR_TXE =? 0) = false) ->
   isr_reads m' = (isr_reads m + List.length (crlf (c_chars s)))%nat).
Proof.
  intro H. destruct (uart_puts_reads isr fuel s m m' H) as [[Hlo Hhi] Hex].
  split_all; assumption.
Qed.

Lemma uart_puts_status_reads_witness :
  exists m',
    uart_puts isr_alternating 2 greeting reset_machine = Some m' /\
    (isr_reads reset_machine + List.length (crlf (c_chars greeting))
     <= isr_reads m')%nat /\
    (isr_reads m'
     <= isr_reads reset_machine
        + List.length (crlf (c_chars greeting)) * 2)%nat.
Proof.
  destruct (returns_some
              (uart_puts isr_alternating 2 greeting reset_machine) eq_refl)
    as [m' E].
  destruct (uart_puts_status_reads isr_alternating 2 greeting reset_machine
              m' E) as (Hlo & Hhi & _).
  exists m'. split_all; [exact E | exact Hlo | exact Hhi].
Defined.

(** ** Pin configuration and the order of the bring-up stores *)

Lemma bits32_forall (P : Z -> bool) :
  forallb P bits32 = true -> forall i, 0 <= i < 32 -> P i = true.
Proof.
  intros H i Hi. rewrite forallb_forall in H. apply H.
  unfold bits32. apply in_map_iff. exists (Z.to_nat i). split; [lia|].
  apply in_seq. lia.
Qed.

Lemma rmw_bits (v clr set i : Z) :
  0 <= i < 32 ->
  Z.testbit (u32 (Z.lor (u32 (Z.land v clr)) set)) i
  = (Z.testbit v i && Z.testbit clr i) || Z.testbit set i.
Proof.
  intro Hi. now rewrite u32_testbit, Z.lor_spec, u32_testbit, Z.land_spec.
Qed.

Lemma or_idem (v k : Z) : u32 (Z.lor (u32 (Z.lor v k)) k) = u32 (Z.lor v k).
Proof.
  apply Z.bits_inj'. intros i Hi.
  destruct (Z_lt_ge_dec i 32) as [Hlt|Hge].
  - rewrite !u32_testbit, Z.lor_spec, u32_testbit, Z.lor_spec by lia.
    now destruct (Z.testbit v i), (Z.testbit k i).
  - now rewrite !u32_testbit_high by lia.
Qed.

Lemma rmw_idem (v clr set : Z) :
  u32 (Z.lor (u32 (Z.land (u32 (Z.lor (u32 (Z.land v clr)) set)) clr)) set)
  = u32 (Z.lor (u32 (Z.land v clr)) set).
Proof.
  apply Z.bits_inj'. intros i Hi.
  destruct (Z_lt_ge_dec i 32) as [Hlt|Hge].
  - rewrite !rmw_bits by lia.
    now destruct (Z.testbit v i), (Z.testbit clr i), (Z.testbit set i).
  - now rewrite !u32_testbit_high by lia.
Qed.

Ltac load_norm :=
  repeat first [ rewrite load_store_same
               | rewrite load_store_other by discriminate ].

Lemma bring_up_gpioa_moder (m : machine) :
  load GPIOA_MODER (bring_up m)
  = u32 (Z.lor (u32 (Z.land (load GPIOA_MODER m)
                            (Z.lnot (Z.shiftl 3 (9 * 2)))))
               (Z.shiftl 2 (9 * 2))).
Proof. unfold_bring_up. now load_norm. Qed.

Lemma bring_up_gpioa_afrh (m : machine) :
  load GPIOA_AFRH (bring_up m)
  = u32 (Z.lor (u32 (Z.land (load GPIOA_AFRH m) (Z.lnot (Z.shiftl 0xF 4))))
               (Z.shiftl 7 4)).
Proof. unfold_bring_up. now load_norm. Qed.

Lemma bring_up_gpioe_moder (m : machine) :
  load GPIOE_MODER (bring_up m)
  = u32 (Z.lor (u32 (Z.land (load GPIOE_MODER m)
                            (Z.lnot (Z.shiftl 3 (9 * 2)))))
               (Z.shiftl 1 (9 * 2))).
Proof. unfold_bring_up. now load_norm. Qed.

Lemma bring_up_tdr (m : machine) :
  load USART1_TDR (bring_up m) = load USART1_TDR m.
Proof. unfold_bring_up. now load_norm. Qed.

(** Decides a bit equation in [i] alone over the 32 bit positions. *)
Ltac bit_table i Hi :=
  apply eqb_prop;
  match goal with
  | |- ?G = true =>
      let P := eval pattern i in G in
      match P with
      | ?F _ => apply (bits32_forall F); [vm_compute; reflexivity | exact Hi]
      end
  end.

Lemma stored_to_refl (m : machine) : stored_to m m [].
Proof. exists []. now rewrite app_nil_r. Qed.

Lemma stored_to_snoc (m m1 : machine) (rs : list reg) (r : reg) (v : Z) :
  stored_to m m1 rs -> stored_to m (store r v m1) (rs ++ [r]).
Proof.
  intros (tr & E & F). exists (tr ++ [(r, u32 v)]). split.
  - unfold store. simpl stores. now rewrite E, app_assoc.
  - now rewrite map_app, F.
Qed.

Lemma stored_to_trans (m m1 m2 : machine) (a b : list reg) :
  stored_to m m1 a -> stored_to m1 m2 b -> stored_to m m2 (a ++ b).
Proof.
  intros (ta & Ea & Fa) (tb & Eb & Fb). exists (ta ++ tb). split.
  - now rewrite Eb, Ea, app_assoc.
  - now rewrite map_app, Fa, Fb.
Qed.

Lemma stored_to_sent (m m' : machine) (bytes : list Z) :
  sent m bytes m' -> stored_to m m' (repeat USART1_TDR (List.length bytes)).
Proof.
  intros (E & _). exists (map (pair USART1_TDR) bytes). split; [exact E|].
  clear E. induction bytes as [|b bytes IH]; [reflexivity|].
  simpl. now rewrite IH.
Qed.

Lemma bring_up_stored_to (m : machine) :
  stored_to m (bring_up m)
    [RCC_AHBENR; RCC_APB2ENR; GPIOA_MODER; GPIOA_MODER; GPIOA_AFRH;
     GPIOA_AFRH; GPIOE_MODER; GPIOE_MODER; USART1_BRR; USART1_CR1].
Proof.
  assert (exists rs,
             stored_to m (bring_up m) rs /\
             rs = [RCC_AHBENR; RCC_APB2ENR; GPIOA_MODER; GPIOA_MODER;
                   GPIOA_AFRH; GPIOA_AFRH; GPIOE_MODER; GPIOE_MODER;
                   USART1_BRR; USART1_CR1]) as (rs & H & ->).
  { eexists. split.
    - unfold_bring_up. do 10 apply stored_to_snoc. apply stored_to_refl.
    - reflexivity. }
  exact H.
Qed.

(** X10.  Bring-up puts pin PA9 in alternate-function mode with function 7,
    whatever the two registers held: afterwards the mode field of PA9
    (bits 19:18 of GPIOA_MODER) reads binary 10 and the function field of
    PA9 (bits 7:4 of GPIOA_AFRH) reads 0111, and every other bit of the two
    registers is as it was. *)
Theorem bring_up_tx_pin (m : machine) (i : Z) :
  0 <= i < 32 ->
  Z.testbit (load GPIOA_MODER (bring_up m)) i
  = (if i =? 19 then true
     else if i =? 18 then false
     else Z.testbit (load GPIOA_MODER m) i) /\
  Z.testbit (load GPIOA_AFRH (bring_up m)) i
  = (if (4 <=? i) && (i <=? 6) then true
     else if i =? 7 then false
     else Z.testbit (load GPIOA_AFRH m) i).
Proof.
  intro Hi. split.
  - rewrite bring_up_gpioa_moder, rmw_bits by exact Hi.
    destruct (Z.testbit (load GPIOA_MODER m) i); bit_table i Hi.
  - rewrite bring_up_gpioa_afrh, rmw_bits by exact Hi.
    destruct (Z.testbit (load GPIOA_AFRH m) i); bit_table i Hi.
Qed.

Lemma bring_up_tx_pin_witness :
  Z.testbit (load GPIOA_MODER (bring_up busy_machine)) 18
  = (if 18 =? 19 then true
     else if 18 =? 18 then false
     else Z.testbit (load GPIOA_MODER busy_machine) 18) /\
  Z.testbit (load GPIOA_AFRH (bring_up busy_machine)) 18
  = (if (4 <=? 18) && (18 <=? 6) then true
     else if 18 =? 7 then false
     else Z.testbit (load GPIOA_AFRH busy_machine) 18).
Proof. apply (bring_up_tx_pin busy_machine 18). lia. Defined.

(** X11.  Bring-up makes the LED pin PE9 a general-purpose output, whatever
    GPIOE_MODER held: afterwards its mode field (bits 19:18) reads binary 01
    and every other bit of the register is as it was. *)
Theorem bring_up_led_pin (m : machine) (i : Z) :
  0 <= i < 32 ->
  Z.testbit (load GPIOE_MODER (bring_up m)) i
  = (if i =? 18 then true
     else if i =? 19 then false
     else Z.testbit (load GPIOE_MODER m) i).
Proof.
  intro Hi. rewrite bring_up_gpioe_moder, rmw_bits by exact Hi.
  destruct (Z.testbit (load GPIOE_MODER m) i); bit_table i Hi.
Qed.

Lemma bring_up_led_pin_witness :
  Z.testbit (load GPIOE_MODER (bring_up busy_machine)) 19
  = (if 19 =? 18 then true
     else if 19 =? 19 then false
     else Z.testbit (load GPIOE_MODER busy_machine) 19).
Proof. apply (bring_up_led_pin busy_machine 19). lia. Defined.

(** X12.  Bring-up is idempotent on the registers: running it a second time
    leaves every register reading what it read after the first run. *)
Theorem bring_up_idempotent (m : machine) (r : reg) :
  load r (bring_up (bring_up m)) = load r (bring_up m).
Proof.
  destruct (bring_up_rcc m) as [Ha Hb].
  destruct (bring_up_rcc (bring_up m)) as [Ha' Hb'].
  destruct r.
  - rewrite Ha', enable_clocks_ahbenr, Ha, enable_clocks_ahbenr.
    apply or_idem.
  - rewrite Hb', enable_clocks_apb2enr, Hb, enable_clocks_apb2enr.
    apply or_idem.
  - rewrite !bring_up_gpioa_moder. apply rmw_idem.
  - rewrite !bring_up_gpioa_afrh. apply rmw_idem.
  - rewrite !bring_up_gpioe_moder. apply rmw_idem.
  - now rewrite !bring_up_odr.
  - now rewrite !bring_up_brr.
  - now rewrite !bring_up_cr1.
  - now rewrite !bring_up_tdr.
Qed.

(** X13.  Bring-up stores in a fixed order and polls nothing: the two clock
    enables come first, then the pin registers, then the baud rate, and the
    UART enable last; and whenever the start of [main] returns, the fourteen
    stores to USART1_TDR all come after that enable and the store to the LED
    register comes last of all. *)
Theorem bring_up_store_order (isr : nat -> Z) (fuel : nat) (m m' : machine) :
  stored_to m (bring_up m)
    [RCC_AHBENR; RCC_APB2ENR; GPIOA_MODER; GPIOA_MODER; GPIOA_AFRH;
     GPIOA_AFRH; GPIOE_MODER; GPIOE_MODER; USART1_BRR; USART1_CR1] /\
  isr_reads (bring_up m) = isr_reads m /\
  (startup isr fuel m = Some m' ->
   stored_to m m'
     ([RCC_AHBENR; RCC_APB2ENR; GPIOA_MODER; GPIOA_MODER; GPIOA_AFRH;
       GPIOA_AFRH; GPIOE_MODER; GPIOE_MODER; USART1_BRR; USART1_CR1]
        ++ repeat USART1_TDR 14 ++ [GPIOE_ODR])).
Proof.
  split_all.
  - apply bring_up_stored_to.
  - reflexivity.
  - intro H. unfold startup in H.
    destruct (uart_puts isr fuel greeting (bring_up m)) as [m1|] eqn:E;
      [|discriminate].
    simpl in H. injection H as <-.
    apply (stored_to_trans m (bring_up m)); [apply bring_up_stored_to|].
    unfold or_assign. apply stored_to_snoc.
    exact (stored_to_sent _ _ _ (uart_puts_sent isr fuel greeting _ _ E)).
Qed.

Lemma bring_up_store_order_witness :
  exists m',
    startup isr_alternating 2 reset_machine = Some m' /\
    stored_to reset_machine m'
      ([RCC_AHBENR; RCC_APB2ENR; GPIOA_MODER; GPIOA_MODER; GPIOA_AFRH;
        GPIOA_AFRH; GPIOE_MODER; GPIOE_MODER; USART1_BRR; USART1_CR1]
         ++ repeat USART1_TDR 14 ++ [GPIOE_ODR]).
Proof.
  destruct (returns_some (startup isr_alternating 2 reset_machine) eq_refl)
    as [m' E].
  exists m'. split; [exact E|].
  now apply (bring_up_store_order isr_alternating 2 reset_machine m').
Defined.

(** ** The loop on arbitrary samples *)

Lemma last_cons_default (x d : Z) (l : list Z) : last (x :: l) d = last l x.
Proof.
  revert x d. induction l as [|y l IH]; intros x d; [reflexivity|].
  change (last (x :: y :: l) d) with (last (y :: l) d).
  now rewrite !IH.
Qed.

Lemma toggled_trans (a b : nat) (m m1 m2 : machine) :
  toggled a m m1 -> toggled b m1 m2 -> toggled (a + b) m m2.
Proof.
  induction 1 as [m|a m m0 m1 Hr _ IH]; intro H2; [exact H2|].
  simpl. eapply toggled_S; [exact Hr | now apply IH].
Qed.

Lemma toggled_uart_tx (n : nat) (m m' : machine) :
  toggled n m m' ->
  uart_tx m' = uart_tx m ++ List.concat (repeat button_pressed_crlf n).
Proof.
  induction 1 as [m|n m m1 m2 Hr _ IH]; simpl List.concat.
  - now rewrite app_nil_r.
  - now rewrite IH, (released_uart_tx _ _ Hr), <- app_assoc.
Qed.

Lemma toggled_odr_writes (n : nat) (m m' : machine) :
  toggled n m m' ->
  List.length (writes_to GPIOE_ODR (stores m'))
  = (List.length (writes_to GPIOE_ODR (stores m)) + n)%nat.
Proof.
  induction 1 as [m|n m m1 m2 Hr _ IH]; [lia|].
  rewrite IH, (released_odr_writes _ _ Hr), List.length_app. simpl. lia.
Qed.

Lemma toggled_led (n : nat) (m m' : machine) :
  toggled n m m' -> led_level m' = xorb (led_level m) (Nat.odd n).
Proof.
  induction 1 as [m|n m m1 m2 Hr _ IH]; [now rewrite xorb_false_r|].
  rewrite IH, (released_led _ _ Hr), Nat.odd_succ, <- Nat.negb_odd.
  now destruct (led_level m), (Nat.odd n).
Qed.

Lemma toggled_frame (n : nat) (m m' : machine) :
  toggled n m m' ->
  forall r, r <> USART1_TDR -> r <> GPIOE_ODR -> load r m' = load r m.
Proof.
  induction 1 as [m|n m m1 m2 (_ & _ & F) _ IH]; intros r H1 H2;
    [reflexivity|].
  rewrite IH by assumption. now apply F.
Qed.

Lemma toggled_odr_bits (n : nat) (m m' : machine) :
  toggled n m m' ->
  forall i, 0 <= i < 32 -> i <> 9 ->
    Z.testbit (load GPIOE_ODR m') i = Z.testbit (load GPIOE_ODR m) i.
Proof.
  induction 1 as [m|n m m1 m2 (_ & O & _) _ IH]; intros i Hi Hne;
    [reflexivity|].
  rewrite IH, O, u32_testbit, Z.lxor_spec by assumption.
  rewrite Z.shiftl_1_l, Z.pow2_bits_eqb by lia.
  destruct (Z.eqb_spec 9 i); [lia|]. apply xorb_false_r.
Qed.

Lemma toggled_stored_to (n : nat) (m m' : machine) :
  toggled n m m' ->
  exists rs,
    stored_to m m' rs /\
    Forall (fun r => r = USART1_TDR \/ r = GPIOE_ODR) rs.
Proof.
  induction 1 as [m|n m m1 m2 (St & _) _ (rs & Hs & Hf)].
  - exists []. split; [apply stored_to_refl | constructor].
  - exists ((repeat USART1_TDR 16 ++ [GPIOE_ODR]) ++ rs). split.
    + apply (stored_to_trans m m1); [|exact Hs].
      eexists. split; [exact St | reflexivity].
    + apply Forall_app. split; [|exact Hf].
      simpl. repeat (apply Forall_cons; [auto|]). apply Forall_nil.
Qed.

Section Samples.

Variable isr : nat -> Z.

Lemma uart_puts_released (fuel : nat) (m m1 : machine) :
  uart_puts isr fuel button_msg m = Some m1 ->
  released m (xor_assign GPIOE_ODR (Z.shiftl 1 9) m1).
Proof.
  intro H. destruct (uart_puts_sent isr fuel button_msg m m1 H)
    as (S1 & F1 & _).
  assert (HO : load GPIOE_ODR m1 = load GPIOE_ODR m)
    by (apply F1; discriminate).
  unfold xor_assign. split; [|split].
  - unfold store. simpl stores. rewrite S1, HO, <- app_assoc. reflexivity.
  - now rewrite load_store_same, HO.
  - intros r Hr1 Hr2. rewrite load_store_other by exact Hr2. now apply F1.
Qed.

Lemma main_loop_edges (fuel : nat) (idrs : list Z) :
  forall p m m' p',
    p = 0 \/ p = 1 ->
    main_loop isr fuel idrs p m = Some (m', p') ->
    p' = last (map sample idrs) p /\
    toggled (falling_edges p (map sample idrs)) m m'.
Proof.
  induction idrs as [|v idrs IH]; intros p m m' p' Hp H; simpl in H.
  - injection H as <- <-. split; [reflexivity | constructor].
  - destruct (loop_body isr fuel v p m) as [[m1 p1]|] eqn:E; [|discriminate].
    simpl in H. simpl map. rewrite last_cons_default. simpl falling_edges.
    destruct (sample_bit v) as [Hv|Hv]; destruct Hp as [-> | ->];
      rewrite Hv in *; simpl.
    + rewrite loop_body_low_released in E by exact Hv.
      injection E as <- <-. apply IH; [now left | exact H].
    + rewrite loop_body_low_pressed in E by exact Hv.
      destruct (uart_puts isr fuel button_msg m) as [m0|] eqn:Ep;
        [|discriminate].
      simpl in E. injection E as <- <-.
      destruct (IH 0 _ m' p' (or_introl eq_refl) H) as [Hl Ht].
      split; [exact Hl|].
      eapply toggled_S; [exact (uart_puts_released _ _ _ Ep) | exact Ht].
    + rewrite loop_body_high_released in E by exact Hv.
      injection E as <- <-. apply IH; [now right | exact H].
    + rewrite loop_body_high_pressed in E by exact Hv.
      injection E as <- <-. apply IH; [now right | exact H].
Qed.

End Samples.

Lemma startup_started (isr : nat -> Z) (fuel : nat) (m m0 : machine) :
  startup isr fuel m = Some m0 -> started m m0.
Proof.
  unfold startup. intro H.
  destruct (uart_puts isr fuel greeting (bring_up m)) as [m1|] eqn:E;
    [|discriminate].
  simpl in H. injection H as <-.
  destruct (uart_puts_sent isr fuel greeting _ _ E) as (S1 & F1 & _).
  assert (HO : load GPIOE_ODR m1 = load GPIOE_ODR m).
  { unfold load. rewrite F1 by discriminate. apply bring_up_odr. }
  unfold or_assign. split; [|split].
  - unfold store. simpl stores. rewrite S1, HO, <- app_assoc. reflexivity.
  - now rewrite load_store_same, HO.
  - intros r Hr1 Hr2. rewrite load_store_other by exact Hr2. now apply F1.
Qed.

Lemma started_stored_to (m m0 : machine) :
  started m m0 ->
  stored_to (bring_up m) m0 (repeat USART1_TDR 14 ++ [GPIOE_ODR]).
Proof. intros (St & _). eexists. split; [exact St | reflexivity]. Qed.

(** X14.  On any sequence of samples the loop reports each release once:
    once the hardware keeps reporting TXE, the loop started with the flag
    clear returns with the flag at the last sampled level, having sent the
    button message as many times as the samples have falling edges and
    nothing else, and having stored to the LED register that many times, so
    that the LED level is inverted exactly when that number is odd. *)
Theorem main_loop_counts_releases (isr : nat -> Z) (idrs : list Z)
        (m : machine) :
  eventually_ready isr ->
  exists f0 m',
    (forall fuel, (f0 <= fuel)%nat ->
       main_loop isr fuel idrs 0 m = Some (m', last (map sample idrs) 0)) /\
    uart_tx m'
    = uart_tx m
        ++ List.concat (repeat button_pressed_crlf
                               (falling_edges 0 (map sample idrs))) /\
    List.length (writes_to GPIOE_ODR (stores m'))
    = (List.length (writes_to GPIOE_ODR (stores m))
       + falling_edges 0 (map sample idrs))%nat /\
    led_level m'
    = xorb (led_level m) (Nat.odd (falling_edges 0 (map sample idrs))).
Proof.
  intro ready.
  destruct (main_loop_total isr ready idrs 0 m) as (f0 & [m' p'] & E).
  destruct (main_loop_edges isr f0 idrs 0 m m' p' (or_introl eq_refl) E)
    as [-> Ht].
  exists f0, m'. split_all.
  - intros fuel Hle. now apply (main_loop_mono isr f0).
  - now apply toggled_uart_tx.
  - now apply toggled_odr_writes.
  - now apply toggled_led.
Qed.

Lemma main_loop_counts_releases_witness :
  eventually_ready isr_alternating /\
  exists f0 m',
    (forall fuel, (f0 <= fuel)%nat ->
       main_loop isr_alternating fuel three_presses 0 busy_machine
       = Some (m', last (map sample three_presses) 0)) /\
    uart_tx m'
    = uart_tx busy_machine
        ++ List.concat
             (repeat button_pressed_crlf
                     (falling_edges 0
                        (map sample three_presses))) /\
    List.length (writes_to GPIOE_ODR (stores m'))
    = (List.length (writes_to GPIOE_ODR (stores busy_machine))
       + falling_edges 0 (map sample three_presses))%nat /\
    led_level m'
    = xorb (led_level busy_machine)
           (Nat.odd (falling_edges 0
                       (map sample three_presses))).
Proof.
  split; [exact isr_alternating_ready|].
  exact (main_loop_counts_releases isr_alternating three_presses
           busy_machine isr_alternating_ready).
Defined.

Example falling_edges_three_presses :
  falling_edges 0 (map sample three_presses) = 3%nat.
Proof. reflexivity. Qed.

(** X15.  The program never disturbs its own configuration: however far
    [main] has run, every register other than USART1_TDR and GPIOE_ODR still
    reads what bring-up left in it (the baud rate 69 and the control value 9
    in particular), every bit of GPIOE_ODR other than the LED bit is as it
    was at entry, and every store made after bring-up went to USART1_TDR or
    GPIOE_ODR. *)
Theorem main_keeps_configuration (isr : nat -> Z) (fuel : nat)
        (idrs : list Z) (m m' : machine) (p : Z) :
  main isr fuel idrs m = Some (m', p) ->
  (forall r, r <> USART1_TDR -> r <> GPIOE_ODR ->
             load r m' = load r (bring_up m)) /\
  load USART1_BRR m' = 69 /\
  load USART1_CR1 m' = 9 /\
  (forall i, 0 <= i < 32 -> i <> 9 ->
     Z.testbit (load GPIOE_ODR m') i = Z.testbit (load GPIOE_ODR m) i) /\
  exists rs,
    stored_to (bring_up m) m' rs /\
    Forall (fun r => r = USART1_TDR \/ r = GPIOE_ODR) rs.
Proof.
  unfold main. intro H.
  destruct (startup isr fuel m) as [m0|] eqn:E0; [|discriminate].
  simpl in H. apply startup_started in E0.
  destruct (main_loop_edges isr fuel idrs 0 m0 m' p (or_introl eq_refl) H)
    as [_ Ht].
  assert (Hframe : forall r, r <> USART1_TDR -> r <> GPIOE_ODR ->
                             load r m' = load r (bring_up m)).
  { intros r H1 H2. rewrite (toggled_frame _ _ _ Ht r H1 H2).
    now apply E0. }
  split_all.
  - exact Hframe.
  - rewrite Hframe by discriminate. apply bring_up_brr.
  - rewrite Hframe by discriminate. apply bring_up_cr1.
  - intros i Hi Hne. rewrite (toggled_odr_bits _ _ _ Ht i Hi Hne).
    destruct E0 as (_ & -> & _). rewrite set_bit9 by exact Hi.
    destruct (Z.eqb_spec i 9); [contradiction | reflexivity].
  - destruct (toggled_stored_to _ _ _ Ht) as (rs & Hs & Hf).
    exists ((repeat USART1_TDR 14 ++ [GPIOE_ODR]) ++ rs). split.
    + apply (stored_to_trans (bring_up m) m0); [|exact Hs].
      now apply started_stored_to.
    + apply Forall_app. split; [|exact Hf].
      simpl. repeat (apply Forall_cons; [auto|]). apply Forall_nil.
Qed.

Lemma main_keeps_configuration_witness :
  exists m' p,
    main isr_alternating 2 [0; 1; 0; 1; 0] busy_machine = Some (m', p) /\
    load USART1_BRR m' = 69 /\
    load USART1_CR1 m' = 9.
Proof.
  destruct (returns_some
              (main isr_alternating 2 [0; 1; 0; 1; 0] busy_machine) eq_refl)
    as [[m' p] E].
  destruct (main_keeps_configuration isr_alternating 2 [0; 1; 0; 1; 0]
              busy_machine m' p E) as (_ & Hbrr & Hcr1 & _).
  exists m', p. split_all; [exact E | exact Hbrr | exact Hcr1].
Defined.

(** X16.  The whole byte protocol: once the hardware keeps reporting TXE,
    [main] run over any sequence of samples returns having put on the wire
    the greeting once and then the button message once per falling edge of
    the samples, and nothing else, and it leaves the LED high exactly when
    the number of releases so far is even. *)
Theorem main_byte_protocol (isr : nat -> Z) (idrs : list Z) (m : machine) :
  eventually_ready isr ->
  exists f0 m',
    (forall fuel, (f0 <= fuel)%nat ->
       main isr fuel idrs m = Some (m', last (map sample idrs) 0)) /\
    uart_tx m'
    = uart_tx m ++ hello_world_crlf
        ++ List.concat (repeat button_pressed_crlf
                               (falling_edges 0 (map sample idrs))) /\
    led_level m' = Nat.even (falling_edges 0 (map sample idrs)).
Proof.
  intro ready.
  destruct (startup_runs isr ready m) as (f0 & m0 & Hrun & Hst).
  destruct (main_loop_total isr ready idrs 0 m0) as (f1 & [m' p'] & E).
  destruct (main_loop_edges isr f1 idrs 0 m0 m' p' (or_introl eq_refl) E)
    as [-> Ht].
  exists (Nat.max f0 f1), m'. split_all.
  - intros fuel Hle. unfold main. rewrite (Hrun fuel) by lia. simpl.
    apply (main_loop_mono isr f1); [lia | exact E].
  - rewrite (toggled_uart_tx _ _ _ Ht), (started_uart_tx _ _ Hst).
    now rewrite <- app_assoc.
  - rewrite (toggled_led _ _ _ Ht), (started_led _ _ Hst).
    now rewrite <- Nat.negb_odd.
Qed.

Lemma main_byte_protocol_witness :
  eventually_ready isr_alternating /\
  exists f0 m',
    (forall fuel, (f0 <= fuel)%nat ->
       main isr_alternating fuel three_presses reset_machine
       = Some (m', last (map sample three_presses) 0)) /\
    uart_tx m'
    = uart_tx reset_machine ++ hello_world_crlf
        ++ List.concat
             (repeat button_pressed_crlf
                     (falling_edges 0
                        (map sample three_presses))) /\
    led_level m'
    = Nat.even (falling_edges 0 (map sample three_presses)).
Proof.
  split; [exact isr_alternating_ready|].
  exact (main_byte_protocol isr_alternating three_presses
           reset_machine isr_alternating_ready).
Defined.
